(** * Association core of the deep-sort tracker

    A shallow embedding of [deep_sort/linear_assignment.py] and
    [deep_sort/tracker.py]: the thresholded matcher [min_cost_matching],
    the tiered [matching_cascade], the gating step [get_cost_matrix] and
    the per-frame orchestration [Tracker._match] / [Tracker.update]; and
    of the detection filter [filter_boxes] of [yolo/yolov4.py], which
    hands the detector's boxes to the tracker.

    Modelling conventions.
    - Python exceptions are values of [result]; those that the code can
      raise on its own are [IndexError], [ValueError] and [KeyError].
    - A floating-point number is the rational it denotes, of type [Q].
      Comparisons are exact; an arithmetic operation is the exact
      operation followed by rounding to nearest, ties to even, in the
      format of the source ([float64] for costs, [float32] for the
      detector's tensors).  Infinities and NaN are not modelled.
    - A 2-D [np.ndarray] is a list of rows.
    - An index subset is either a Python [list] or a 1-D [np.ndarray]; the
      two differ in their truth value, which the matcher tests.
    - The assignment solver ([scipy.optimize.linear_sum_assignment]), the
      Kalman filter, the appearance metric and the IOU cost are
      collaborators outside the two files: each is an interface (a class),
      and the parts of their contracts a theorem needs are hypotheses. *)

From Stdlib Require Import QArith Qround Qabs Qpower Qminmax Lqa.
From stdpp Require Import base option list gmap sets.

(** ** Exceptions and the error monad *)

Inductive exn := IndexError | ValueError | KeyError.

Inductive result (A : Type) : Type :=
| Ok (a : A)
| Raise (e : exn).
Arguments Ok {A} a.
Arguments Raise {A} e.

#[global] Instance result_ret : MRet result := λ A a, Ok a.
#[global] Instance result_bind : MBind result := λ A B f m,
  match m with
  | Ok a => f a
  | Raise e => Raise e
  end.

#[global] Instance result_fmap : FMap result := λ A B f m,
  match m with
  | Ok a => Ok (f a)
  | Raise e => Raise e
  end.

(** A [for] loop whose body may raise. *)
Fixpoint foldM {A S : Type} (body : S → A → result S) (s : S) (l : list A)
  : result S :=
  match l with
  | [] => Ok s
  | x :: l' => s' ← body s x; foldM body s' l'
  end.

(** [seq[i]] for a non-negative [i]: [IndexError] when out of range. *)
Definition index {A : Type} (l : list A) (i : nat) : result A :=
  match l !! i with
  | Some x => Ok x
  | None => Raise IndexError
  end.

(** [d[k]] on a dict: [KeyError] when the key is absent. *)
Definition dict_get {V : Type} (d : gmap nat V) (k : nat) : result V :=
  match d !! k with
  | Some x => Ok x
  | None => Raise KeyError
  end.

(** [[f(xs[i]) for i in ks]] *)
Fixpoint gather {A B : Type} (f : A → B) (xs : list A) (ks : list nat)
  : result (list B) :=
  match ks with
  | [] => Ok []
  | k :: ks' => x ← index xs k; r ← gather f xs ks'; Ok (f x :: r)
  end.

(** [[k for k in ks if p(xs[k])]] *)
Fixpoint select {A : Type} (p : A → bool) (xs : list A) (ks : list nat)
  : result (list nat) :=
  match ks with
  | [] => Ok []
  | k :: ks' =>
      x ← index xs k; r ← select p xs ks'; Ok (if p x then k :: r else r)
  end.

(** [range(n)] for a Python integer [n] *)
Definition range (n : Z) : list nat := seq 0 (Z.to_nat n).

(** [enumerate(seq)] *)
Definition enumerate {A : Type} (l : list A) : list (nat * A) :=
  zip (seq 0 (length l)) l.

(** ** Costs and cost matrices *)

Abbreviation Matrix := (list (list Q)).

#[global] Instance Q_inhabited : Inhabited Q := populate 0%Q.

(** [x > y] on costs. *)
Definition Qgtb (x y : Q) : bool :=
  match (x ?= y)%Q with
  | Gt => true
  | _ => false
  end.

(** [cost_matrix[row, col]] *)
Definition index2 (m : Matrix) (row col : nat) : result Q :=
  r ← index m row; index r col.

(** [cost_matrix.shape == (R, C)] *)
Definition shape (m : Matrix) (R C : nat) : Prop :=
  length m = R ∧ Forall (λ r, length r = C) m.

(** Total reading of an entry, for stating properties of in-range
    entries. *)
Definition entry (m : Matrix) (row col : nat) : Q :=
  (m !!! row) !!! col.

(** ** Floating-point rounding *)

(** The integer nearest to [q], the even one of two that are equally
    near. *)
Definition round_half_even (q : Q) : Z :=
  let f := Qfloor q in
  match (q - inject_Z f ?= 1 # 2)%Q with
  | Lt => f
  | Gt => (f + 1)%Z
  | Eq => if Z.even f then f else (f + 1)%Z
  end.

(** The exponent [e] with [2^e <= |q| < 2^(e+1)], for [q] other than 0. *)
Definition binade (q : Q) : Z :=
  let a := Qabs q in
  let e := (Z.log2 (Qnum a) - Z.log2 (Z.pos (Qden a)))%Z in
  if Qle_bool (2 ^ e) a then e else (e - 1)%Z.

(** The exponent of the unit in the last place of [q], in a binary format
    with [prec] bits of precision whose smallest positive number is
    [2^emin]. *)
Definition ulp_exponent (prec emin : Z) (q : Q) : Z :=
  Z.max (binade q - (prec - 1)) emin.

(** IEEE 754 rounding to nearest, ties to even: the multiple of the unit
    in the last place nearest to [q].  Overflow is not modelled. *)
Definition round_float (prec emin : Z) (q : Q) : Q :=
  if Qeq_bool q 0 then 0%Q
  else
    let ulp := (2 ^ ulp_exponent prec emin q)%Q in
    Qred (inject_Z (round_half_even (q / ulp)) * ulp).

Definition float64 : Q → Q := round_float 53 (-1074).
Definition float32 : Q → Q := round_float 24 (-149).

(** ** Index subsets *)

Inductive IndexSeq :=
| PyList (l : list nat)
| NdArray (l : list nat).

Definition items (s : IndexSeq) : list nat :=
  match s with
  | PyList l => l
  | NdArray l => l
  end.

(** [bool(s)]: a list is true when non-empty; a one-element array has the
    truth value of its element, a longer array has none ([ValueError]),
    and the empty array is false (NumPy warns that this is deprecated). *)
Definition truth (s : IndexSeq) : result bool :=
  match s with
  | PyList l => Ok (negb (bool_decide (l = [])))
  | NdArray [] => Ok false
  | NdArray [x] => Ok (negb (bool_decide (x = 0)))
  | NdArray (_ :: _ :: _) => Raise ValueError
  end.

(** [np.arange(n)] *)
Definition arange (n : nat) : IndexSeq := NdArray (seq 0 n).

(** [l + s] for a list [l]: the concatenation when [s] is a list; when
    [s] is an array, NumPy's elementwise sum, which broadcasts a single
    element and raises [ValueError] on other unequal lengths. *)
Definition list_add (l : list nat) (s : IndexSeq) : result IndexSeq :=
  match s with
  | PyList l' => Ok (PyList (l ++ l'))
  | NdArray a =>
      if bool_decide (length l = length a) then
        Ok (NdArray (zip_with Nat.add l a))
      else if bool_decide (length l = 1) then
        Ok (NdArray ((λ y, l !!! 0 + y) <$> a))
      else if bool_decide (length a = 1) then
        Ok (NdArray ((λ x, x + a !!! 0) <$> l))
      else Raise ValueError
  end.

(** ** Tracks and detections *)

Definition Feature : Type := list Q.

Inductive TrackState := Tentative | Confirmed | Deleted.

#[global] Instance TrackState_eq_dec : EqDecision TrackState.
Proof. solve_decision. Defined.

(** Modelled from the spec: the [Track] class of [deep_sort/track.py] is
    not among the sources; its fields are those of the data model (§3). *)
Record Track := mkTrack {
  track_id : nat;
  state : TrackState;
  mean : list Q;
  covariance : Matrix;
  hits : nat;
  age : nat;
  time_since_update : nat;
  features : list Feature;
  class_id : nat;
}.

(** Modelled from the spec: [Track.is_confirmed] and [Track.is_deleted]
    test the lifecycle state (§4.3). *)
Definition is_confirmed (t : Track) : bool :=
  bool_decide (state t = Confirmed).
Definition is_deleted (t : Track) : bool :=
  bool_decide (state t = Deleted).

(** Modelled from the spec: the [Detection] type exposes a box in
    (x, y, aspect, height) form, a feature vector and a class label (§6). *)
Record Detection := mkDetection {
  to_xyah : list Q;
  feature : Feature;
  get_class : nat;
}.

#[global] Instance Track_inhabited : Inhabited Track :=
  populate (mkTrack 0 Tentative [] [] 0 0 0 [] 0).

#[global] Instance Detection_inhabited : Inhabited Detection :=
  populate (mkDetection [] [] 0).

(** A cost function: [(tracks, detections, track_indices,
    detection_indices) -> cost_matrix]. *)
Definition DistanceMetric : Type :=
  list Track → list Detection → IndexSeq → IndexSeq → result Matrix.

(** ** linear_assignment.py *)

Definition INFTY_COST : Q := 100000.

(** The literal [1e-5]: the [float64] nearest to it. *)
Definition EPS : Q := float64 (1 # 100000).

(** [x + y] on [float64]. *)
Definition float_add (x y : Q) : Q := float64 (x + y).

(** [cost_matrix[cost_matrix > max_distance] = max_distance + 1e-5] *)
Definition clamp_entry (max_distance c : Q) : Q :=
  if Qgtb c max_distance then float_add max_distance EPS else c.
Definition clamp (max_distance : Q) (m : Matrix) : Matrix :=
  (λ row : list Q, clamp_entry max_distance <$> row) <$> m.

(** [scipy.optimize.linear_sum_assignment], with its two result arrays
    zipped into (row, column) pairs as [np.transpose] does. *)
Class AssignmentSolver := linear_assignment : Matrix → list (nat * nat).

(** Python's [list(s)] for a set [s] of integers: some listing of the
    elements, in an order the code does not rely on. *)
Class SetOrder := list_of_set : gset nat → list nat.

(** The Kalman filter [kf]: [kf.gating_distance(mean, covariance,
    measurements, only_position)] gives one squared distance per
    measurement, [kf.initiate(box)] a state distribution. *)
Class KalmanFilter := {
  gating_distance : list Q → Matrix → list (list Q) → bool → list Q;
  initiate : list Q → list Q * Matrix;
}.

Section linear_assignment.
Context `{!AssignmentSolver, !SetOrder, !KalmanFilter}.

(** Body of the loop [for row, col in indices]. *)
Definition assign_pair (track_indices detection_indices : IndexSeq)
    (cost_matrix : Matrix) (max_distance : Q)
    (acc : list (nat * nat) * list nat * list nat) (rc : nat * nat)
  : result (list (nat * nat) * list nat * list nat) :=
  let '(matches, unmatched_tracks, unmatched_detections) := acc in
  let '(row, col) := rc in
  track_idx ← index (items track_indices) row;
  detection_idx ← index (items detection_indices) col;
  c ← index2 cost_matrix row col;
  if Qgtb c max_distance then
    Ok (matches, unmatched_tracks ++ [track_idx],
        unmatched_detections ++ [detection_idx])
  else
    Ok (matches ++ [(track_idx, detection_idx)], unmatched_tracks,
        unmatched_detections).

Definition min_cost_matching (distance_metric : DistanceMetric)
    (max_distance : Q) (tracks : list Track) (detections : list Detection)
    (track_indices detection_indices : option IndexSeq)
  : result (list (nat * nat) * IndexSeq * IndexSeq) :=
  let track_indices := default (arange (length tracks)) track_indices in
  let detection_indices :=
    default (arange (length detections)) detection_indices in
  no_tracks ← negb <$> truth track_indices;
  nothing ← (if no_tracks : bool then Ok true
             else negb <$> truth detection_indices);
  if nothing : bool then
    (* nothing to match *)
    Ok ([], track_indices, detection_indices)
  else
    cost_matrix ←
      distance_metric tracks detections track_indices detection_indices;
    let cost_matrix := clamp max_distance cost_matrix in
    let indices := linear_assignment cost_matrix in
    let unmatched_detections :=
      (filter (λ p, p.1 ∉ indices.*2)
              (enumerate (items detection_indices))).*2 in
    let unmatched_tracks :=
      (filter (λ p, p.1 ∉ indices.*1)
              (enumerate (items track_indices))).*2 in
    '(matches, unmatched_tracks, unmatched_detections) ←
      foldM (assign_pair track_indices detection_indices cost_matrix
                         max_distance)
            ([], unmatched_tracks, unmatched_detections) indices;
    Ok (matches, PyList unmatched_tracks, PyList unmatched_detections).

(** The loop [for level in range(cascade_depth)], as a recursion over
    the levels still to run. *)
Fixpoint cascade_levels (distance_metric : DistanceMetric)
    (max_distance : Q) (tracks : list Track) (detections : list Detection)
    (track_indices : IndexSeq) (levels : list nat)
    (matches : list (nat * nat)) (unmatched_detections : IndexSeq)
  : result (list (nat * nat) * IndexSeq) :=
  match levels with
  | [] => Ok (matches, unmatched_detections)
  | level :: levels' =>
      if bool_decide (length (items unmatched_detections) = 0) then
        (* No detections left: break *)
        Ok (matches, unmatched_detections)
      else
        track_indices_l ←
          select (λ t, bool_decide (time_since_update t = 1 + level))
                 tracks (items track_indices);
        if bool_decide (length track_indices_l = 0) then
          (* Nothing to match at this level: continue *)
          cascade_levels distance_metric max_distance tracks detections
                         track_indices levels' matches unmatched_detections
        else
          '(matches_l, _, unmatched_detections) ←
            min_cost_matching distance_metric max_distance tracks
              detections (Some (PyList track_indices_l))
              (Some unmatched_detections);
          cascade_levels distance_metric max_distance tracks detections
                         track_indices levels' (matches ++ matches_l)
                         unmatched_detections
  end.

Definition matching_cascade (distance_metric : DistanceMetric)
    (max_distance : Q) (cascade_depth : Z) (tracks : list Track)
    (detections : list Detection)
    (track_indices detection_indices : option IndexSeq)
  : result (list (nat * nat) * list nat * IndexSeq) :=
  let track_indices :=
    default (PyList (seq 0 (length tracks))) track_indices in
  let detection_indices :=
    default (PyList (seq 0 (length detections))) detection_indices in
  '(matches, unmatched_detections) ←
    cascade_levels distance_metric max_distance tracks detections
                   track_indices (range cascade_depth) [] detection_indices;
  let unmatched_tracks :=
    list_of_set (list_to_set (items track_indices) ∖
                 list_to_set matches.*1) in
  Ok (matches, unmatched_tracks, unmatched_detections).

(** Modelled from the spec: [kalman_filter.KalmanFilter.chi_square] is
    not among the sources; the table holds the 95% critical values of
    the chi-square distribution, of which §4.2 gives the two that
    [get_cost_matrix] reads. *)
Definition chi_square : gmap nat Q :=
  {[ 2 := 59915 # 10000; 4 := 94877 # 10000 ]}.

(** [cost_matrix[row, mask] = value] with a boolean mask: [IndexError]
    when the row does not exist or the mask has not the row's length. *)
Definition mask_assign (cost_matrix : Matrix) (row : nat)
    (mask : list bool) (value : Q) : result Matrix :=
  r ← index cost_matrix row;
  if bool_decide (length mask = length r) then
    Ok (<[row := zip_with (λ (b : bool) c, if b then value else c) mask r]>
          cost_matrix)
  else Raise IndexError.

Definition get_cost_matrix (cost_matrix : Matrix) (tracks : list Track)
    (detections : list Detection)
    (track_indices detection_indices : IndexSeq)
    (gated_cost : option Q) (only_position : bool) : result Matrix :=
  let gated_cost := default INFTY_COST gated_cost in
  let gating_dim := if only_position then 2 else 4 in
  gating_threshold ← dict_get chi_square gating_dim;
  measurements ← gather to_xyah detections (items detection_indices);
  foldM (λ cost_matrix '(row, track_idx),
           track ← index tracks track_idx;
           let distances :=
             gating_distance (mean track) (covariance track) measurements
                             only_position in
           mask_assign cost_matrix row
             ((λ g, Qgtb g gating_threshold) <$> distances) gated_cost)
        cost_matrix (enumerate (items track_indices)).

End linear_assignment.

(** ** tracker.py *)

(** The appearance metric is an object outside the two files.  Its
    [matching_threshold] is fixed at construction, and [partial_fit] is the
    only way the tracker changes it: its state is the sequence of
    [partial_fit] calls it has received. *)
Record FitCall := mkFitCall {
  fit_features : list Feature;
  fit_targets : list nat;
  fit_active_targets : list nat;
}.

Record Metric := mkMetric {
  matching_threshold : Q;
  fitted : list FitCall;
}.

(** [metric.partial_fit(features, targets, active_targets)] *)
Definition partial_fit (m : Metric) (features : list Feature)
    (targets active_targets : list nat) : Metric :=
  {| matching_threshold := matching_threshold m;
     fitted := fitted m ++ [mkFitCall features targets active_targets] |}.

Record Tracker := mkTracker {
  metric : Metric;
  max_age : Z;
  max_iou_distance : Q;
  n_init : Z;
  tracks : list Track;
  _next_id : nat;
}.

(** What [Tracker] uses and the two files do not define: the metric's
    [distance], [iou_matching.iou_cost], and the methods and constructor
    of [Track]. *)
Class Collaborators := {
  metric_distance : Metric → list Feature → list nat → Matrix;
  iou_cost : DistanceMetric;
  Track_predict : Track → Track;
  Track_update : Track → Detection → Track;
  Track_mark_missed : Track → Track;
  Track_init : list Q → Matrix → nat → Z → Z → Feature → nat → Track;
}.

(** [Tracker(metric, max_iou_distance=0.7, max_age=50, n_init=3)] *)
Definition __init__ (metric : Metric) (max_iou_distance : option Q)
    (max_age n_init : option Z) : Tracker :=
  {| metric := metric;
     max_age := default 50%Z max_age;
     max_iou_distance := default (7 # 10)%Q max_iou_distance;
     n_init := default 3%Z n_init;
     tracks := [];
     _next_id := 1 |}.

Definition clear_features (t : Track) : Track :=
  {| track_id := track_id t; state := state t; mean := mean t;
     covariance := covariance t; hits := hits t; age := age t;
     time_since_update := time_since_update t; features := [];
     class_id := class_id t |}.

Section tracker.
Context `{!AssignmentSolver, !SetOrder, !KalmanFilter, !Collaborators}.

Definition predict (self : Tracker) : Tracker :=
  {| metric := metric self; max_age := max_age self;
     max_iou_distance := max_iou_distance self; n_init := n_init self;
     tracks := Track_predict <$> tracks self;
     _next_id := _next_id self |}.

Definition gated_metric (self : Tracker) : DistanceMetric :=
  λ tracks dets track_indices detection_indices,
    features ← gather feature dets (items detection_indices);
    targets ← gather track_id tracks (items track_indices);
    let cost_matrix := metric_distance (metric self) features targets in
    get_cost_matrix cost_matrix tracks dets track_indices
                    detection_indices None false.

Definition _match (self : Tracker) (detections : list Detection)
  : result (list (nat * nat) * list nat * IndexSeq) :=
  (* Split track set into confirmed and unconfirmed tracks. *)
  let confirmed_tracks :=
    (filter (λ p, is_confirmed p.2) (enumerate (tracks self))).*1 in
  let unconfirmed_tracks :=
    (filter (λ p, negb (is_confirmed p.2)) (enumerate (tracks self))).*1 in
  (* Associate confirmed tracks using appearance features. *)
  '(matches_a, unmatched_tracks_a, unmatched_detections) ←
    matching_cascade (gated_metric self)
      (matching_threshold (metric self)) (max_age self) (tracks self)
      detections (Some (PyList confirmed_tracks)) None;
  (* Associate remaining tracks together with unconfirmed tracks using
     IOU. *)
  recent ← select (λ t, bool_decide (time_since_update t = 1))
                  (tracks self) unmatched_tracks_a;
  let iou_track_candidates := unconfirmed_tracks ++ recent in
  unmatched_tracks_a ←
    select (λ t, negb (bool_decide (time_since_update t = 1)))
           (tracks self) unmatched_tracks_a;
  '(matches_b, unmatched_tracks_b, unmatched_detections) ←
    min_cost_matching iou_cost (max_iou_distance self) (tracks self)
      detections (Some (PyList iou_track_candidates))
      (Some unmatched_detections);
  let matches := matches_a ++ matches_b in
  both ← list_add unmatched_tracks_a unmatched_tracks_b;
  let unmatched_tracks := list_of_set (list_to_set (items both)) in
  Ok (matches, unmatched_tracks, unmatched_detections).

Definition _initiate_track (self : Tracker) (detection : Detection)
  : Tracker :=
  let '(mean, covariance) := initiate (to_xyah detection) in
  {| metric := metric self; max_age := max_age self;
     max_iou_distance := max_iou_distance self; n_init := n_init self;
     tracks := tracks self ++
       [Track_init mean covariance (_next_id self) (n_init self)
                   (max_age self) (feature detection)
                   (get_class detection)];
     _next_id := _next_id self + 1 |}.

(** [self.tracks[i] = f(self.tracks[i])], for a method [f] that mutates
    the track object in place. *)
Definition with_track (self : Tracker) (i : nat) (f : Track → Track)
  : result Tracker :=
  t ← index (tracks self) i;
  Ok {| metric := metric self; max_age := max_age self;
        max_iou_distance := max_iou_distance self; n_init := n_init self;
        tracks := <[i := f t]> (tracks self);
        _next_id := _next_id self |}.

(** Body of the loop [for track in self.tracks] that gathers the
    features of the confirmed tracks; the third component is the list of
    tracks as the loop leaves them. *)
Definition collect (acc : list Feature * list nat * list Track)
    (track : Track) : list Feature * list nat * list Track :=
  let '(features_, targets, seen) := acc in
  if negb (is_confirmed track) then (features_, targets, seen ++ [track])
  else (features_ ++ features track,
        targets ++ ((λ _, track_id track) <$> features track),
        seen ++ [clear_features track]).

(** First half of [update] ("Update track set"): the three loops over
    the outcome of [_match]. *)
Definition update_track_set (self : Tracker) (detections : list Detection)
    (matches : list (nat * nat)) (unmatched_tracks : list nat)
    (unmatched_detections : IndexSeq) : result Tracker :=
  self ← foldM (λ self '(track_idx, detection_idx),
                  detection ← index detections detection_idx;
                  with_track self track_idx
                             (λ t, Track_update t detection))
               self matches;
  self ← foldM (λ self track_idx,
                  with_track self track_idx Track_mark_missed)
               self unmatched_tracks;
  foldM (λ self detection_idx,
           detection ← index detections detection_idx;
           Ok (_initiate_track self detection))
        self (items unmatched_detections).

(** Second half of [update]: drop the deleted tracks, then
    "Update distance metric". *)
Definition update_metric (self : Tracker) : Tracker :=
  let live := filter (λ t, negb (is_deleted t)) (tracks self) in
  let active_targets := track_id <$> filter (λ t, is_confirmed t) live in
  let '(features_, targets, live) := foldl collect ([], [], []) live in
  {| metric := partial_fit (metric self) features_ targets active_targets;
     max_age := max_age self;
     max_iou_distance := max_iou_distance self; n_init := n_init self;
     tracks := live;
     _next_id := _next_id self |}.

Definition update (self : Tracker) (detections : list Detection)
  : result Tracker :=
  '(matches, unmatched_tracks, unmatched_detections) ←
    _match self detections;
  self ← update_track_set self detections matches unmatched_tracks
                          unmatched_detections;
  Ok (update_metric self).

End tracker.

(*FB_MODEL*)

(** ** Sample collaborators

    Concrete, executable instances of the interfaces, on which the model
    can be run. *)

(** Assigns row [i] to column [i]: a one-to-one assignment of [min(R, C)]
    pairs (not a cheapest one in general). *)
Definition diagonal_assignment : AssignmentSolver :=
  λ m, (λ i, (i, i)) <$> seq 0 (min (length m) (length (m !!! 0))).

Definition elements_order : SetOrder := λ s, elements s.

Definition flat_filter : KalmanFilter :=
  {| gating_distance := λ _ _ measurements _, (λ _, 0%Q) <$> measurements;
     initiate := λ box, (box, []) |}.

(** A filter for which the detection at position [i] of the measurements
    is at squared distance [10 * i] from every track. *)
Definition ramp_filter : KalmanFilter :=
  {| gating_distance := λ _ _ measurements _,
       (λ i, inject_Z (10 * Z.of_nat i)) <$> seq 0 (length measurements);
     initiate := λ box, (box, []) |}.

(** A cost function that reads its costs from a table. *)
Definition table_metric (m : Matrix) : DistanceMetric := λ _ _ _ _, Ok m.

(** A cost function with the same cost for every pair. *)
Definition const_metric (c : Q) : DistanceMetric :=
  λ _ _ track_indices detection_indices,
    Ok ((λ _, (λ _, c) <$> items detection_indices) <$> items track_indices).

Definition sample_collaborators : Collaborators :=
  {| metric_distance := λ _ fs ts, (λ _, (λ _, 1 # 10) <$> fs) <$> ts;
     iou_cost := const_metric (1 # 10);
     Track_predict := id;
     Track_update := λ t _, t;
     Track_mark_missed := id;
     Track_init := λ m c i _ _ f cl, mkTrack i Tentative m c 0 0 0 [f] cl |}.

Definition sample_track (id tsu : nat) (st : TrackState) : Track :=
  mkTrack id st [] [] 0 0 tsu [[1%Q]] 0.

Definition sample_detection : Detection := mkDetection [] [] 0.

(** Two confirmed tracks, missed for one and for two frames, and a
    tentative one. *)
Definition sample_tracks : list Track :=
  [sample_track 1 1 Confirmed; sample_track 2 2 Confirmed;
   sample_track 3 1 Tentative].

Definition sample_detections : list Detection :=
  [sample_detection; sample_detection; sample_detection; sample_detection].

Definition sample_tracker : Tracker :=
  mkTracker (mkMetric (1 # 5) []) 30 (7 # 10) 3 sample_tracks 4.

(** ** Contracts of the collaborators *)

(** A one-to-one partial assignment inside an [R]×[C] matrix. *)
Definition valid_assignment (R C : nat) (a : list (nat * nat)) : Prop :=
  NoDup a.*1 ∧ NoDup a.*2 ∧ Forall (λ rc, rc.1 < R ∧ rc.2 < C) a.

Definition total_cost (m : Matrix) (a : list (nat * nat)) : Q :=
  foldr (λ rc s, (entry m rc.1 rc.2 + s)%Q) 0%Q a.

(** What §4.1 asks of the solver on one matrix: a one-to-one assignment of
    [min(R, C)] pairs that no other such assignment undercuts. *)
Definition optimal_assignment (m : Matrix) (R C : nat)
    (a : list (nat * nat)) : Prop :=
  valid_assignment R C a ∧ length a = min R C ∧
  ∀ a', valid_assignment R C a' → length a' = min R C →
        (total_cost m a <= total_cost m a')%Q.

(** Contract of a cost function on given track and detection lists: for
    index subsets within the lists it returns a matrix with one row per
    track index and one column per detection index. *)
Definition well_shaped (distance_metric : DistanceMetric)
    (tracks : list Track) (detections : list Detection) : Prop :=
  ∀ ti di,
    Forall (λ k, k < length tracks) (items ti) →
    Forall (λ k, k < length detections) (items di) →
    ∃ cm, distance_metric tracks detections ti di = Ok cm ∧
          shape cm (length (items ti)) (length (items di)).

(** The value that the clamp writes lies above the threshold.  On
    [float64] that fails once [max_distance + 1e-5] rounds back to
    [max_distance], from [|max_distance| = 2^37] on. *)
Definition clamp_exceeds (max_distance : Q) : Prop :=
  (max_distance < float_add max_distance EPS)%Q.

(** ** What the matcher returns, in closed form *)

Definition rejected (max_distance : Q) (m : Matrix) (a : list (nat * nat))
  : list (nat * nat) :=
  filter (λ rc, Qgtb (entry m rc.1 rc.2) max_distance) a.

Definition accepted (max_distance : Q) (m : Matrix) (a : list (nat * nat))
  : list (nat * nat) :=
  filter (λ rc, ¬ Qgtb (entry m rc.1 rc.2) max_distance) a.

(** Entries of [l] at the positions that [used] does not name. *)
Definition untouched (used : list nat) (l : list nat) : list nat :=
  (l !!!.) <$> filter (.∉ used) (seq 0 (length l)).

(** The pairs the solver chose for a call with cost matrix [cm]. *)
Definition chosen `{!AssignmentSolver} (max_distance : Q) (cm : Matrix) : list (nat * nat) :=
  linear_assignment (clamp max_distance cm).

Definition matcher_matches `{!AssignmentSolver} (max_distance : Q) (cm : Matrix)
    (ti di : list nat) : list (nat * nat) :=
  (λ rc, (ti !!! rc.1, di !!! rc.2))
    <$> accepted max_distance (clamp max_distance cm)
                 (chosen max_distance cm).

Definition matcher_unmatched_tracks `{!AssignmentSolver}
    (max_distance : Q) (cm : Matrix)
    (ti : list nat) : list nat :=
  untouched (chosen max_distance cm).*1 ti ++
  ((λ rc, ti !!! rc.1)
     <$> rejected max_distance (clamp max_distance cm)
                  (chosen max_distance cm)).

Definition matcher_unmatched_detections `{!AssignmentSolver}
    (max_distance : Q) (cm : Matrix)
    (di : list nat) : list nat :=
  untouched (chosen max_distance cm).*2 di ++
  ((λ rc, di !!! rc.2)
     <$> rejected max_distance (clamp max_distance cm)
                  (chosen max_distance cm)).

(** ** Closed forms for the cascade, the gating step and the tracker *)

(** Tracks of a subset that a given cascade level takes. *)
Definition level_tracks (tracks : list Track) (ti : list nat) (level : nat)
  : list nat :=
  filter (λ k, time_since_update (tracks !!! k) = 1 + level) ti.

(** The state in which a run of the cascade enters a level: the matches
    of the levels before, and the detections still unmatched. *)
Definition cascade_state_at `{!AssignmentSolver}
    (distance_metric : DistanceMetric)
    (max_distance : Q) (tracks : list Track) (detections : list Detection)
    (track_indices detection_indices : IndexSeq) (level : nat)
  : result (list (nat * nat) * IndexSeq) :=
  cascade_levels distance_metric max_distance tracks detections
                 track_indices (seq 0 level) [] detection_indices.

(** The row that [cost_matrix[row, mask] = value] writes. *)
Definition masked (mask : list bool) (value : Q) (row : list Q) : list Q :=
  zip_with (λ (b : bool) c, if b then value else c) mask row.

(** The gating distances of the track at position [row] of the track
    subset to the detections of the detection subset. *)
Definition gating_row `{!KalmanFilter} (tracks : list Track) (detections : list Detection)
    (ti di : list nat) (only_position : bool) (row : nat) : list Q :=
  let track := tracks !!! (ti !!! row) in
  gating_distance (mean track) (covariance track)
                  ((λ i, to_xyah (detections !!! i)) <$> di) only_position.

(** The positions of the confirmed and of the other tracks. *)
Definition confirmed_positions (trs : list Track) : list nat :=
  filter (λ k, is_confirmed (trs !!! k)) (seq 0 (length trs)).
Definition unconfirmed_positions (trs : list Track) : list nat :=
  filter (λ k, negb (is_confirmed (trs !!! k))) (seq 0 (length trs)).

(** ** Closed forms for a frame of the tracker *)

(** The track that [_initiate_track] creates for a detection, with a
    given id. *)
Definition spawned `{!KalmanFilter, !Collaborators} (self : Tracker)
    (id : nat) (detection : Detection) : Track :=
  let '(mean, covariance) := initiate (to_xyah detection) in
  Track_init mean covariance id (n_init self) (max_age self)
             (feature detection) (get_class detection).

(** The tracker with another list of tracks. *)
Definition with_tracks (self : Tracker) (trs : list Track) : Tracker :=
  {| metric := metric self; max_age := max_age self;
     max_iou_distance := max_iou_distance self; n_init := n_init self;
     tracks := trs; _next_id := _next_id self |}.

(** A list of in-place changes [tracks[i] = f(tracks[i])], applied in
    order. *)
Definition apply_ops (ops : list (nat * (Track → Track)))
    (trs : list Track) : list Track :=
  foldl (λ l p, <[p.1 := p.2 (l !!! p.1)]> l) trs ops.

(** The changes of the first loop of [update], one per match, and of the
    second, one per unmatched track. *)
Definition match_ops `{!Collaborators} (detections : list Detection)
    (matches : list (nat * nat)) : list (nat * (Track → Track)) :=
  (λ td, (td.1, λ t, Track_update t (detections !!! td.2))) <$> matches.
Definition miss_ops `{!Collaborators} (unmatched_tracks : list nat)
  : list (nat * (Track → Track)) :=
  (λ k, (k, Track_mark_missed)) <$> unmatched_tracks.

(** The ids of the live tracks are pairwise different and below the next
    id to give out. *)
Definition ids_fresh (self : Tracker) : Prop :=
  NoDup (track_id <$> tracks self) ∧
  Forall (λ t, track_id t < _next_id self) (tracks self).

(** A frame as the tracker is driven: [predict], then [update] with the
    detections of the frame; and a sequence of frames. *)
Definition frame `{!AssignmentSolver, !SetOrder, !KalmanFilter,
    !Collaborators} (self : Tracker) (detections : list Detection)
  : result Tracker :=
  update (predict self) detections.
Definition frames `{!AssignmentSolver, !SetOrder, !KalmanFilter,
    !Collaborators} (self : Tracker) (session : list (list Detection))
  : result Tracker :=
  foldM frame self session.

(*FB_CLOSED*)

(** ** Facts about rounding *)

Lemma round_half_even_range (q : Q) :
  round_half_even q = Qfloor q ∨ round_half_even q = (Qfloor q + 1)%Z.
Proof.
  unfold round_half_even. destruct (_ ?= _)%Q; [|by left|by right].
  destruct (Z.even _); [by left|by right].
Qed.

Lemma round_half_even_mono (x y : Q) :
  (x <= y)%Q → (round_half_even x <= round_half_even y)%Z.
Proof.
  intros Hxy. pose proof (Qfloor_resp_le x y Hxy) as Hf.
  destruct (Z.eq_dec (Qfloor x) (Qfloor y)) as [E|E].
  - unfold round_half_even. rewrite <- E.
    destruct (Qcompare_spec (x - inject_Z (Qfloor x)) (1 # 2)) as [Hx|Hx|Hx];
      destruct (Qcompare_spec (y - inject_Z (Qfloor x)) (1 # 2))
        as [Hy|Hy|Hy];
      try lia; try lra; destruct (Z.even (Qfloor x)); lia.
  - destruct (round_half_even_range x) as [-> | ->];
      destruct (round_half_even_range y) as [-> | ->]; lia.
Qed.

Lemma round_half_even_Z (z : Z) : round_half_even (inject_Z z) = z.
Proof.
  unfold round_half_even. rewrite Qfloor_Z.
  destruct (Qcompare_spec (inject_Z z - inject_Z z) (1 # 2)) as [H|H|H];
    try lra; done.
Qed.

Lemma Qpower_2_pos (k : Z) : (0 < 2 ^ k)%Q.
Proof. apply Qpower_0_lt. reflexivity. Qed.

Lemma Qpower_2_succ (k : Z) : (2 ^ (k + 1) == 2 * 2 ^ k)%Q.
Proof.
  rewrite Qpower_plus by discriminate. change (2 ^ 1)%Q with 2%Q. ring.
Qed.

Lemma Qpower_2_sub (a b : Z) : (2 ^ (a - b) * 2 ^ b == 2 ^ a)%Q.
Proof.
  rewrite <- Qpower_plus by discriminate.
  by replace (a - b + b)%Z with a by lia.
Qed.

Lemma Qpower_2_Z (k : Z) : (0 <= k)%Z → (inject_Z (2 ^ k) == 2 ^ k)%Q.
Proof. intros Hk. by rewrite Zpower_Qpower. Qed.

Lemma Qpower_2_mono (a b : Z) : (a <= b)%Z → (2 ^ a <= 2 ^ b)%Q.
Proof. intros H. apply Qpower_le_compat_l; [done|]. discriminate. Qed.

(** [binade q] is the exponent of the binade of [q]. *)
Lemma binade_spec (q : Q) :
  ¬ (q == 0)%Q → (2 ^ binade q <= Qabs q < 2 ^ (binade q + 1))%Q.
Proof.
  intros Hq. unfold binade. destruct q as [n d]. cbn [Qabs Qnum Qden].
  assert (0 < Z.abs n)%Z as Hn.
  { assert (n ≠ 0%Z); [|lia]. intros ->. by apply Hq. }
  set (a := (Z.abs n # d)%Q).
  set (ln := Z.log2 (Z.abs n)). set (ld := Z.log2 (Z.pos d)).
  destruct (Z.log2_spec (Z.abs n) Hn) as [Hn1 Hn2].
  destruct (Z.log2_spec (Z.pos d) eq_refl) as [Hd1 Hd2].
  fold ln in Hn1, Hn2. fold ld in Hd1, Hd2.
  assert (0 <= ln)%Z as Hln by apply Z.log2_nonneg.
  assert (0 <= ld)%Z as Hld by apply Z.log2_nonneg.
  assert (a * inject_Z (Z.pos d) == inject_Z (Z.abs n))%Q as Ha.
  { subst a. rewrite (Qmake_Qdiv (Z.abs n) d). field. discriminate. }
  pose proof (Qpower_2_pos ln) as Ppn. pose proof (Qpower_2_pos ld) as Ppd.
  pose proof (Qpower_2_pos (ln - ld)) as Ppe.
  pose proof (Qpower_2_sub ln ld) as He.
  assert (2 ^ ln <= inject_Z (Z.abs n))%Q as Qn1.
  { rewrite <- Qpower_2_Z by done. by rewrite <- Zle_Qle. }
  assert (inject_Z (Z.abs n) < 2 * 2 ^ ln)%Q as Qn2.
  { rewrite <- Qpower_2_succ, <- Qpower_2_Z by lia. rewrite <- Zlt_Qlt.
    by replace (ln + 1)%Z with (Z.succ ln) by lia. }
  assert (2 ^ ld <= inject_Z (Z.pos d))%Q as Qd1.
  { rewrite <- Qpower_2_Z by done. by rewrite <- Zle_Qle. }
  assert (inject_Z (Z.pos d) < 2 * 2 ^ ld)%Q as Qd2.
  { rewrite <- Qpower_2_succ, <- Qpower_2_Z by lia. rewrite <- Zlt_Qlt.
    by replace (ld + 1)%Z with (Z.succ ld) by lia. }
  assert (0 < a)%Q as Hpos by (subst a; reflexivity || (unfold Qlt; simpl; lia)).
  destruct (Qle_bool (2 ^ (ln - ld)) a) eqn:Hb.
  - apply Qle_bool_iff in Hb. split; [done|].
    rewrite Qpower_2_succ. nra.
  - assert (a < 2 ^ (ln - ld))%Q as Hlt.
    { apply Qnot_le_lt. intros Hle. apply Qle_bool_iff in Hle. congruence. }
    replace (ln - ld - 1 + 1)%Z with (ln - ld)%Z by lia.
    split; [|done].
    pose proof (Qpower_2_succ (ln - ld - 1)) as Hs.
    replace (ln - ld - 1 + 1)%Z with (ln - ld)%Z in Hs by lia.
    pose proof (Qpower_2_pos (ln - ld - 1)). nra.
Qed.

Section rounding.
Variables prec emin : Z.
Hypothesis prec_pos : (1 <= prec)%Z.

Let fl := round_float prec emin.
Let u := ulp_exponent prec emin.

Lemma round_float_zero (q : Q) : (q == 0)%Q → fl q = 0%Q.
Proof.
  intros Hq. unfold fl, round_float.
  by rewrite (proj2 (Qeq_bool_iff q 0) Hq).
Qed.

Lemma round_float_nonzero (q : Q) :
  ¬ (q == 0)%Q →
  (fl q == inject_Z (round_half_even (q / 2 ^ u q)) * 2 ^ u q)%Q.
Proof.
  intros Hq. unfold fl, round_float.
  destruct (Qeq_bool q 0) eqn:E; [by apply Qeq_bool_iff in E|].
  apply Qred_correct.
Qed.

(** A multiple [m * 2^k] of the unit in the last place is a float that
    rounding does not cross. *)
Lemma round_float_fence (q : Q) (m k : Z) :
  ¬ (q == 0)%Q → (u q <= k)%Z →
  ((q <= inject_Z m * 2 ^ k → fl q <= inject_Z m * 2 ^ k) ∧
   (inject_Z m * 2 ^ k <= q → inject_Z m * 2 ^ k <= fl q))%Q.
Proof.
  intros Hq Hk. rewrite (round_float_nonzero q Hq).
  pose proof (Qpower_2_pos (u q)) as Hu.
  pose proof (Qpower_2_sub k (u q)) as Hsub.
  assert (inject_Z (m * 2 ^ (k - u q)) == inject_Z m * 2 ^ (k - u q))%Q
    as HM.
  { rewrite inject_Z_mult, Qpower_2_Z by lia. reflexivity. }
  set (M := (m * 2 ^ (k - u q))%Z) in *.
  assert (inject_Z m * 2 ^ k == inject_Z M * 2 ^ u q)%Q as Hc.
  { rewrite HM, <- Hsub. ring. }
  rewrite Hc. split; intros Hle.
  - apply Qmult_le_compat_r; [|lra]. rewrite <- Zle_Qle.
    rewrite <- (round_half_even_Z M). apply round_half_even_mono.
    apply Qle_shift_div_r; [done|]. exact Hle.
  - apply Qmult_le_compat_r; [|lra]. rewrite <- Zle_Qle.
    rewrite <- (round_half_even_Z M) at 1. apply round_half_even_mono.
    apply Qle_shift_div_l; [done|]. exact Hle.
Qed.

Lemma round_float_nonneg (q : Q) : (0 <= q → 0 <= fl q)%Q.
Proof.
  intros Hq. destruct (Qeq_dec q 0) as [E|E].
  - rewrite (round_float_zero q E). lra.
  - destruct (round_float_fence q 0 (u q) E ltac:(lia)) as [_ H].
    assert (inject_Z 0 * 2 ^ u q == 0)%Q as Hz by ring.
    rewrite Hz in H. by apply H.
Qed.

Lemma round_float_nonpos (q : Q) : (q <= 0 → fl q <= 0)%Q.
Proof.
  intros Hq. destruct (Qeq_dec q 0) as [E|E].
  - rewrite (round_float_zero q E). lra.
  - destruct (round_float_fence q 0 (u q) E ltac:(lia)) as [H _].
    assert (inject_Z 0 * 2 ^ u q == 0)%Q as Hz by ring.
    rewrite Hz in H. by apply H.
Qed.

Lemma binade_mono (x y : Q) :
  ¬ (x == 0)%Q → (Qabs x <= Qabs y)%Q → (binade x <= binade y)%Z.
Proof.
  intros Hx Hxy.
  assert (¬ (y == 0)%Q) as Hy.
  { intros E. rewrite E in Hxy. change (Qabs 0) with 0%Q in Hxy.
    pose proof (Qabs_nonneg x).
    assert (Qabs x == 0)%Q as E0 by lra.
    apply Hx. revert E0.
    apply (Qabs_case x (λ r, r == 0 → x == 0)%Q); intros; lra. }
  destruct (binade_spec x Hx) as [Hx1 Hx2].
  destruct (binade_spec y Hy) as [Hy1 Hy2].
  destruct (Z_lt_le_dec (binade y) (binade x)) as [Hlt|]; [|done].
  pose proof (Qpower_2_mono (binade y + 1) (binade x) ltac:(lia)). lra.
Qed.

Lemma ulp_exponent_mono (x y : Q) :
  ¬ (x == 0)%Q → (Qabs x <= Qabs y)%Q → (u x <= u y)%Z.
Proof.
  intros Hx Hxy. pose proof (binade_mono x y Hx Hxy).
  unfold u, ulp_exponent. lia.
Qed.

Lemma round_float_same_ulp (x y : Q) :
  ¬ (x == 0)%Q → ¬ (y == 0)%Q → u x = u y →
  (x <= y → fl x <= fl y)%Q.
Proof.
  intros Hx Hy Hu Hxy.
  rewrite (round_float_nonzero x Hx), (round_float_nonzero y Hy), Hu.
  pose proof (Qpower_2_pos (u y)) as Hpos.
  apply Qmult_le_compat_r; [|lra]. rewrite <- Zle_Qle.
  apply round_half_even_mono.
  apply Qmult_le_compat_r; [done|]. apply Qinv_le_0_compat. lra.
Qed.

(** Rounding to nearest is monotone. *)
Lemma round_float_mono (x y : Q) : (x <= y → fl x <= fl y)%Q.
Proof.
  intros Hxy.
  destruct (Qlt_le_dec 0 x) as [Hx|Hx].
  - (* 0 < x <= y *)
    assert (¬ (x == 0)%Q) as Hx0 by lra.
    assert (¬ (y == 0)%Q) as Hy0 by lra.
    assert (Qabs x == x)%Q as Ax by (apply Qabs_pos; lra).
    assert (Qabs y == y)%Q as Ay by (apply Qabs_pos; lra).
    pose proof (ulp_exponent_mono x y Hx0 ltac:(lra)) as Hu.
    destruct (Z.eq_dec (u x) (u y)) as [E|E];
      [by apply round_float_same_ulp|].
    destruct (binade_spec x Hx0) as [_ Hx2].
    destruct (binade_spec y Hy0) as [Hy1 _].
    assert (u y = binade y - (prec - 1))%Z as Huy
      by (unfold u, ulp_exponent in *; lia).
    assert (binade x + 1 <= binade y)%Z as Hb
      by (unfold u, ulp_exponent in *; lia).
    pose proof (Qpower_2_mono _ _ Hb) as Hp.
    assert (inject_Z 1 * 2 ^ binade y == 2 ^ binade y)%Q as H1 by ring.
    destruct (round_float_fence x 1 (binade y) Hx0 ltac:(lia)) as [Fx _].
    destruct (round_float_fence y 1 (binade y) Hy0 ltac:(lia)) as [_ Fy].
    rewrite H1 in Fx, Fy.
    specialize (Fx ltac:(lra)). specialize (Fy ltac:(lra)). lra.
  - destruct (Qlt_le_dec y 0) as [Hy|Hy].
    + (* x <= y < 0 *)
      assert (¬ (x == 0)%Q) as Hx0 by lra.
      assert (¬ (y == 0)%Q) as Hy0 by lra.
      assert (Qabs x == - x)%Q as Ax by (apply Qabs_neg; lra).
      assert (Qabs y == - y)%Q as Ay by (apply Qabs_neg; lra).
      pose proof (ulp_exponent_mono y x Hy0 ltac:(lra)) as Hu.
      destruct (Z.eq_dec (u x) (u y)) as [E|E];
        [by apply round_float_same_ulp|].
      destruct (binade_spec x Hx0) as [Hx1 _].
      destruct (binade_spec y Hy0) as [_ Hy2].
      assert (u x = binade x - (prec - 1))%Z as Hux
        by (unfold u, ulp_exponent in *; lia).
      assert (binade y + 1 <= binade x)%Z as Hb
        by (unfold u, ulp_exponent in *; lia).
      pose proof (Qpower_2_mono _ _ Hb) as Hp.
      assert (inject_Z (-1) * 2 ^ binade x == - 2 ^ binade x)%Q as H1
        by ring.
      destruct (round_float_fence x (-1) (binade x) Hx0 ltac:(lia))
        as [Fx _].
      destruct (round_float_fence y (-1) (binade x) Hy0 ltac:(lia))
        as [_ Fy].
      rewrite H1 in Fx, Fy.
      specialize (Fx ltac:(lra)). specialize (Fy ltac:(lra)). lra.
    + (* x <= 0 <= y *)
      pose proof (round_float_nonpos x Hx).
      pose proof (round_float_nonneg y Hy). lra.
Qed.

End rounding.

(** From here on rounding is evaluated by [vm_compute] only. *)
Opaque round_float.

(** ** Basic facts *)

Lemma bind_Ok {A B} (f : A → result B) (a : A) : (Ok a ≫= f) = f a.
Proof. reflexivity. Qed.

Lemma fmap_Ok {A B} (f : A → B) (a : A) : f <$> Ok a = Ok (f a).
Proof. reflexivity. Qed.

Lemma index_lt {A} `{!Inhabited A} (l : list A) (i : nat) :
  i < length l → index l i = Ok (l !!! i).
Proof.
  intros Hi. unfold index.
  by rewrite (list_lookup_lookup_total_lt l i Hi).
Qed.

Lemma index_Ok {A} (l : list A) (i : nat) (x : A) :
  index l i = Ok x ↔ l !! i = Some x.
Proof. unfold index. destruct (l !! i); split; congruence. Qed.

Lemma Qgtb_spec (x y : Q) : Qgtb x y = true ↔ (y < x)%Q.
Proof.
  unfold Qgtb. rewrite (Qgt_alt x y).
  destruct (x ?= y)%Q; split; congruence.
Qed.

Lemma Qgtb_false (x y : Q) : Qgtb x y = false ↔ (x <= y)%Q.
Proof.
  rewrite <- not_true_iff_false, Qgtb_spec. split.
  - apply Qnot_lt_le.
  - apply Qle_not_lt.
Qed.

Lemma EPS_pos : (0 < EPS)%Q.
Proof. vm_compute. reflexivity. Qed.

(** When the clamp value is above the threshold, clamping does not change
    on which side of the threshold a cost is. *)
Lemma Qgtb_clamp_entry (max_distance c : Q) :
  clamp_exceeds max_distance →
  Qgtb (clamp_entry max_distance c) max_distance = Qgtb c max_distance.
Proof.
  intros Hex. unfold clamp_entry.
  destruct (Qgtb c max_distance) eqn:E; [|done]. by apply Qgtb_spec.
Qed.

(** When it is not, no clamped cost is above the threshold. *)
Lemma Qgtb_clamp_entry_absorbed (max_distance c : Q) :
  ¬ clamp_exceeds max_distance →
  Qgtb (clamp_entry max_distance c) max_distance = false.
Proof.
  intros Hab. apply Qgtb_false. unfold clamp_entry.
  destruct (Qgtb c max_distance) eqn:E.
  - apply Qnot_lt_le. exact Hab.
  - by apply Qgtb_false.
Qed.

Lemma clamp_entry_le (max_distance c : Q) :
  clamp_exceeds max_distance →
  (clamp_entry max_distance c <= float_add max_distance EPS)%Q.
Proof.
  intros Hex. unfold clamp_exceeds in Hex. unfold clamp_entry.
  destruct (Qgtb c max_distance) eqn:E.
  - lra.
  - apply Qgtb_false in E. lra.
Qed.

Lemma shape_clamp (max_distance : Q) (m : Matrix) (R C : nat) :
  shape m R C → shape (clamp max_distance m) R C.
Proof.
  intros [HR HC]. split.
  - unfold clamp. by rewrite length_fmap.
  - unfold clamp. apply Forall_fmap. eapply Forall_impl; [exact HC|].
    intros r Hr. simpl. by rewrite length_fmap.
Qed.

Lemma shape_row (m : Matrix) (R C r : nat) :
  shape m R C → r < R → length (m !!! r) = C.
Proof.
  intros [HR HC] Hr. rewrite Forall_forall in HC. apply HC.
  apply list_elem_of_lookup. exists r.
  apply list_lookup_lookup_total_lt. lia.
Qed.

Lemma index2_shape (m : Matrix) (R C r c : nat) :
  shape m R C → r < R → c < C → index2 m r c = Ok (entry m r c).
Proof.
  intros Hs Hr Hc. unfold index2, entry.
  rewrite index_lt by (destruct Hs; lia). rewrite bind_Ok.
  apply index_lt. by rewrite (shape_row m R C r).
Qed.

Lemma entry_clamp (max_distance : Q) (m : Matrix) (R C r c : nat) :
  shape m R C → r < R → c < C →
  entry (clamp max_distance m) r c = clamp_entry max_distance (entry m r c).
Proof.
  intros Hs Hr Hc. unfold entry, clamp.
  assert (Hlr : m !! r = Some (m !!! r)).
  { apply list_lookup_lookup_total_lt. destruct Hs; lia. }
  assert (Hlc : (m !!! r) !! c = Some ((m !!! r) !!! c)).
  { apply list_lookup_lookup_total_lt. by rewrite (shape_row m R C r). }
  erewrite (list_lookup_total_correct _ r); last first.
  { rewrite list_lookup_fmap, Hlr. reflexivity. }
  erewrite (list_lookup_total_correct _ c); [reflexivity|].
  by rewrite list_lookup_fmap, Hlc.
Qed.

Lemma filter_fmap_comm {A B} (f : A → B) (P : B → Prop)
    `{!∀ y, Decision (P y)} (l : list A) :
  filter P (f <$> l) = f <$> filter (λ x, P (f x)) l.
Proof.
  induction l as [|x l IH]; [done|].
  rewrite fmap_cons, !filter_cons. case_decide; rewrite IH; done.
Qed.

Lemma zip_seq_lookup_total {A} `{!Inhabited A} (l : list A) (j : nat) :
  zip (seq j (length l)) l =
  (λ i, (i, l !!! (i - j))) <$> seq j (length l).
Proof.
  revert j. induction l as [|x l IH]; intros j; [done|].
  simpl. f_equal.
  - by rewrite Nat.sub_diag.
  - rewrite IH. apply list_fmap_ext. intros i k Hk.
    apply lookup_seq in Hk as [-> _].
    by replace (S j + i - j) with (S (S j + i - S j)) by lia.
Qed.

Lemma enumerate_lookup_total {A} `{!Inhabited A} (l : list A) :
  enumerate l = (λ i, (i, l !!! i)) <$> seq 0 (length l).
Proof.
  unfold enumerate. rewrite zip_seq_lookup_total.
  apply list_fmap_ext. intros i k _. by rewrite Nat.sub_0_r.
Qed.

(** The first two loops of the matcher collect the entries whose position
    the solver left out. *)
Lemma enumerate_untouched (used l : list nat) :
  (filter (λ p, p.1 ∉ used) (enumerate l)).*2 = untouched used l.
Proof.
  rewrite enumerate_lookup_total, filter_fmap_comm.
  unfold untouched. by rewrite <- list_fmap_compose.
Qed.

Lemma fmap_lookup_total_seq (l : list nat) :
  (l !!!.) <$> seq 0 (length l) = l.
Proof.
  apply list_eq. intros i. rewrite list_lookup_fmap.
  destruct (decide (i < length l)) as [Hi|Hi].
  - rewrite (list_lookup_lookup_total_lt l i Hi).
    assert (seq 0 (length l) !! i = Some i) as -> by (by apply lookup_seq).
    done.
  - rewrite (lookup_ge_None_2 l i) by lia.
    rewrite (lookup_ge_None_2 (seq 0 (length l)) i); [done|].
    rewrite length_seq. lia.
Qed.

(** Positions left out and positions used make up all positions. *)
Lemma untouched_used_perm (used l : list nat) :
  NoDup used → Forall (λ i, i < length l) used →
  untouched used l ++ ((l !!!.) <$> used) ≡ₚ l.
Proof.
  intros Hnd Hlt. unfold untouched. rewrite <- fmap_app.
  trans ((l !!!.) <$> seq 0 (length l));
    [|by rewrite fmap_lookup_total_seq].
  apply fmap_Permutation, NoDup_Permutation.
  - apply NoDup_app. split_and!; [| |done].
    + apply NoDup_filter, NoDup_seq.
    + intros x Hx. by apply list_elem_of_filter in Hx as [? _].
  - apply NoDup_seq.
  - intros x. rewrite elem_of_app, list_elem_of_filter, elem_of_seq.
    rewrite Forall_forall in Hlt. split.
    + intros [[_ ?]|Hx]; [lia|]. apply Hlt in Hx. lia.
    + intros Hx. destruct (decide (x ∈ used)); [by right|]. left. split; [done|lia].
Qed.

Lemma accepted_rejected_perm (max_distance : Q) (m : Matrix)
    (a : list (nat * nat)) :
  accepted max_distance m a ++ rejected max_distance m a ≡ₚ a.
Proof.
  unfold accepted, rejected. rewrite (comm (++)).
  apply (filter_app_complement
           (λ rc, Is_true (Qgtb (entry m rc.1 rc.2) max_distance))).
Qed.

Lemma filter_ext_in {A} (P1 P2 : A → Prop) `{!∀ x, Decision (P1 x)}
    `{!∀ x, Decision (P2 x)} (l : list A) :
  (∀ x, x ∈ l → P1 x ↔ P2 x) → filter P1 l = filter P2 l.
Proof.
  induction l as [|x l IH]; intros Hext; [done|].
  rewrite !filter_cons, IH by (intros y Hy; apply Hext; by right).
  pose proof (Hext x (list_elem_of_here x l)).
  repeat case_decide; first [done | tauto].
Qed.

(** The threshold test reads the clamped matrix.  When the clamp value
    is above the threshold it decides as it would on the original one;
    when it is not, it rejects nothing. *)
Lemma rejected_clamp (max_distance : Q) (m : Matrix) (R C : nat)
    (a : list (nat * nat)) :
  clamp_exceeds max_distance →
  shape m R C → Forall (λ rc, rc.1 < R ∧ rc.2 < C) a →
  rejected max_distance (clamp max_distance m) a = rejected max_distance m a.
Proof.
  intros Hex Hs Ha. apply filter_ext_in. intros [r c] Hrc.
  rewrite Forall_forall in Ha. destruct (Ha _ Hrc) as [Hr Hc]. simpl in *.
  by rewrite (entry_clamp max_distance m R C r c Hs Hr Hc),
       Qgtb_clamp_entry.
Qed.


Lemma rejected_clamp_absorbed (max_distance : Q) (m : Matrix) (R C : nat)
    (a : list (nat * nat)) :
  ¬ clamp_exceeds max_distance →
  shape m R C → Forall (λ rc, rc.1 < R ∧ rc.2 < C) a →
  rejected max_distance (clamp max_distance m) a = [].
Proof.
  intros Hab Hs Ha. unfold rejected.
  induction Ha as [|[r c] a [Hr Hc] Ha IH]; [done|]. simpl in Hr, Hc.
  rewrite filter_cons_False; [exact IH|]. simpl.
  rewrite (entry_clamp max_distance m R C r c Hs Hr Hc).
  rewrite Qgtb_clamp_entry_absorbed by done. intros [].
Qed.

Lemma accepted_clamp_absorbed (max_distance : Q) (m : Matrix) (R C : nat)
    (a : list (nat * nat)) :
  ¬ clamp_exceeds max_distance →
  shape m R C → Forall (λ rc, rc.1 < R ∧ rc.2 < C) a →
  accepted max_distance (clamp max_distance m) a = a.
Proof.
  intros Hab Hs Ha. unfold accepted.
  induction Ha as [|[r c] a [Hr Hc] Ha IH]; [done|]. simpl in Hr, Hc.
  rewrite filter_cons_True; [by rewrite IH|]. simpl.
  rewrite (entry_clamp max_distance m R C r c Hs Hr Hc).
  rewrite Qgtb_clamp_entry_absorbed by done. intros [].
Qed.

Section matcher_facts.
Context `{!AssignmentSolver}.

Lemma assign_pair_in_range (ti di : IndexSeq) (m : Matrix)
    (max_distance : Q) (r c : nat) (ms : list (nat * nat))
    (ut ud : list nat) :
  shape m (length (items ti)) (length (items di)) →
  r < length (items ti) → c < length (items di) →
  assign_pair ti di m max_distance (ms, ut, ud) (r, c) =
  Ok (if Qgtb (entry m r c) max_distance
      then (ms, ut ++ [items ti !!! r], ud ++ [items di !!! c])
      else (ms ++ [(items ti !!! r, items di !!! c)], ut, ud)).
Proof.
  intros Hs Hr Hc. unfold assign_pair.
  rewrite (index_lt _ r Hr), bind_Ok, (index_lt _ c Hc), bind_Ok.
  rewrite (index2_shape m _ _ r c Hs Hr Hc), bind_Ok.
  by destruct (Qgtb (entry m r c) max_distance).
Qed.

(** The loop over the solver's pairs, on pairs that lie inside the cost
    matrix and the two index subsets. *)
Lemma foldM_assign_pair (ti di : IndexSeq) (m : Matrix)
    (max_distance : Q) (a : list (nat * nat))
    (ms : list (nat * nat)) (ut ud : list nat) :
  shape m (length (items ti)) (length (items di)) →
  Forall (λ rc, rc.1 < length (items ti) ∧ rc.2 < length (items di)) a →
  foldM (assign_pair ti di m max_distance) (ms, ut, ud) a =
  Ok (ms ++ ((λ rc, (items ti !!! rc.1, items di !!! rc.2))
               <$> accepted max_distance m a),
      ut ++ ((λ rc, items ti !!! rc.1) <$> rejected max_distance m a),
      ud ++ ((λ rc, items di !!! rc.2) <$> rejected max_distance m a)).
Proof.
  intros Hs Ha. revert ms ut ud.
  induction Ha as [|[r c] a [Hr Hc] Ha IH]; intros ms ut ud.
  { simpl. by rewrite !app_nil_r. }
  simpl in Hr, Hc. cbn [foldM].
  rewrite (assign_pair_in_range ti di m max_distance r c ms ut ud Hs Hr Hc).
  rewrite bind_Ok. unfold accepted, rejected. rewrite !filter_cons. simpl.
  destruct (Qgtb (entry m r c) max_distance) eqn:E.
  - rewrite IH. unfold accepted, rejected.
    rewrite (decide_True (P:=Is_true true)) by exact I.
    rewrite (decide_False (P:=¬ Is_true true)) by (intros Hn; apply Hn, I).
    rewrite !fmap_cons. simpl. by rewrite <- !app_assoc.
  - rewrite IH. unfold accepted, rejected.
    rewrite (decide_False (P:=Is_true false)) by (intros []).
    rewrite (decide_True (P:=¬ Is_true false)) by (intros []).
    rewrite !fmap_cons. simpl. by rewrite <- !app_assoc.
Qed.

(** A call whose two subsets are true reaches the solver and returns the
    closed forms above as fresh lists. *)
Lemma min_cost_matching_run (distance_metric : DistanceMetric)
    (max_distance : Q) (tracks : list Track) (detections : list Detection)
    (ti di : IndexSeq) (cm : Matrix) :
  truth ti = Ok true → truth di = Ok true →
  distance_metric tracks detections ti di = Ok cm →
  shape cm (length (items ti)) (length (items di)) →
  valid_assignment (length (items ti)) (length (items di))
                   (chosen max_distance cm) →
  min_cost_matching distance_metric max_distance tracks detections
                    (Some ti) (Some di) =
  Ok (matcher_matches max_distance cm (items ti) (items di),
      PyList (matcher_unmatched_tracks max_distance cm (items ti)),
      PyList (matcher_unmatched_detections max_distance cm (items di))).
Proof.
  intros Ht Hd Hcm Hs (_ & _ & Ha). unfold min_cost_matching. simpl.
  rewrite Ht, fmap_Ok, bind_Ok. simpl.
  rewrite Hd, fmap_Ok, bind_Ok. simpl.
  rewrite Hcm, bind_Ok. simpl.
  rewrite (foldM_assign_pair ti di _ max_distance _ _ _ _
             (shape_clamp max_distance cm _ _ Hs) Ha).
  rewrite bind_Ok. simpl. rewrite !enumerate_untouched.
  reflexivity.
Qed.

(** A call with a false subset returns at once, handing back the two
    subsets it was given. *)
Lemma min_cost_matching_nothing (distance_metric : DistanceMetric)
    (max_distance : Q) (tracks : list Track) (detections : list Detection)
    (ti di : IndexSeq) :
  truth ti = Ok false ∨ (truth ti = Ok true ∧ truth di = Ok false) →
  min_cost_matching distance_metric max_distance tracks detections
                    (Some ti) (Some di) = Ok ([], ti, di).
Proof.
  unfold min_cost_matching. simpl. intros [Ht|[Ht Hd]].
  - by rewrite Ht.
  - by rewrite Ht, fmap_Ok, bind_Ok; simpl; rewrite Hd.
Qed.

Lemma matcher_tracks_perm (max_distance : Q) (cm : Matrix)
    (ti di : list nat) :
  valid_assignment (length ti) (length di) (chosen max_distance cm) →
  (matcher_matches max_distance cm ti di).*1 ++
    matcher_unmatched_tracks max_distance cm ti ≡ₚ ti.
Proof.
  intros (Hr & _ & Ha).
  unfold matcher_matches, matcher_unmatched_tracks.
  rewrite <- list_fmap_compose.
  rewrite (Permutation_app_comm (untouched _ _)), app_assoc.
  rewrite <- fmap_app, accepted_rejected_perm.
  rewrite (comm (++)).
  etrans; [|apply (untouched_used_perm (chosen max_distance cm).*1 ti Hr)].
  - by rewrite <- list_fmap_compose.
  - apply Forall_fmap. eapply Forall_impl; [exact Ha|]. by intros ? [? _].
Qed.

Lemma matcher_detections_perm (max_distance : Q) (cm : Matrix)
    (ti di : list nat) :
  valid_assignment (length ti) (length di) (chosen max_distance cm) →
  (matcher_matches max_distance cm ti di).*2 ++
    matcher_unmatched_detections max_distance cm di ≡ₚ di.
Proof.
  intros (_ & Hc & Ha).
  unfold matcher_matches, matcher_unmatched_detections.
  rewrite <- list_fmap_compose.
  rewrite (Permutation_app_comm (untouched _ _)), app_assoc.
  rewrite <- fmap_app, accepted_rejected_perm.
  rewrite (comm (++)).
  etrans; [|apply (untouched_used_perm (chosen max_distance cm).*2 di Hc)].
  - by rewrite <- list_fmap_compose.
  - apply Forall_fmap. eapply Forall_impl; [exact Ha|]. by intros ? [_ ?].
Qed.

End matcher_facts.

(** ** The matcher: [min_cost_matching] *)

Section matcher_correct.
Context `{!AssignmentSolver}.

(** C1, at the failing input.  The test of line 46 reads the clamped
    matrix, so it rejects a pair only if the clamp value
    [max_distance + 1e-5] is above [max_distance].  When that sum rounds
    back to [max_distance], a single track and a single detection whose
    cost exceeds [max_distance] are returned as a match, by any solver
    that pairs them. *)
Theorem min_cost_matching_absorbed_threshold
    (max_distance c : Q) (t : Track) (d : Detection) :
  ¬ clamp_exceeds max_distance → (max_distance < c)%Q →
  linear_assignment (clamp max_distance [[c]]) = [(0, 0)] →
  min_cost_matching (table_metric [[c]]) max_distance [t] [d]
                    (Some (PyList [0])) (Some (PyList [0])) =
  Ok ([(0, 0)], PyList [], PyList []).
Proof.
  intros Hab Hc Hsolve.
  rewrite (min_cost_matching_run _ max_distance [t] [d] (PyList [0])
             (PyList [0]) [[c]] eq_refl eq_refl eq_refl).
  - unfold matcher_matches, matcher_unmatched_tracks,
      matcher_unmatched_detections, chosen.
    rewrite Hsolve.
    rewrite (rejected_clamp_absorbed max_distance [[c]] 1 1) by
      (by repeat constructor).
    rewrite (accepted_clamp_absorbed max_distance [[c]] 1 1) by
      (by repeat constructor).
    reflexivity.
  - by repeat constructor.
  - unfold chosen. rewrite Hsolve. unfold valid_assignment. simpl.
    split_and!; [apply NoDup_singleton|apply NoDup_singleton|].
    constructor; [simpl; lia|constructor].
Qed.


(** C9. With two non-empty lists as subsets, a cost matrix of their
    shape and a one-to-one in-range answer from the solver, the call
    returns, and the tracks of the matches together with the unmatched
    tracks are the track subset rearranged (likewise for detections): each
    index of a subset occurs in the outputs as often as in the subset,
    once when the subset has no repetition, and no other index occurs. *)
Theorem min_cost_matching_partition
    (distance_metric : DistanceMetric) (max_distance : Q)
    (tracks : list Track) (detections : list Detection)
    (ti di : list nat) (cm : Matrix) :
  ti ≠ [] → di ≠ [] →
  distance_metric tracks detections (PyList ti) (PyList di) = Ok cm →
  shape cm (length ti) (length di) →
  valid_assignment (length ti) (length di)
                   (linear_assignment (clamp max_distance cm)) →
  ∃ matches ut ud,
    min_cost_matching distance_metric max_distance tracks detections
      (Some (PyList ti)) (Some (PyList di)) =
    Ok (matches, PyList ut, PyList ud) ∧
    matches.*1 ++ ut ≡ₚ ti ∧
    matches.*2 ++ ud ≡ₚ di ∧
    (NoDup ti → NoDup (matches.*1 ++ ut)) ∧
    (NoDup di → NoDup (matches.*2 ++ ud)) ∧
    (∀ t d, (t, d) ∈ matches → t ∈ ti ∧ d ∈ di) ∧
    (∀ t, t ∈ ut → t ∈ ti) ∧ (∀ d, d ∈ ud → d ∈ di).
Proof.
  intros Hti Hdi Hcm Hs Hv.
  rewrite (min_cost_matching_run distance_metric max_distance tracks
             detections (PyList ti) (PyList di) cm); try done.
  2: { simpl. by rewrite bool_decide_eq_false_2. }
  2: { simpl. by rewrite bool_decide_eq_false_2. }
  simpl. eexists _, _, _. split; [reflexivity|].
  pose proof (matcher_tracks_perm max_distance cm ti di Hv) as Pt.
  pose proof (matcher_detections_perm max_distance cm ti di Hv) as Pd.
  split_and!; try done.
  - intros Hnd. by rewrite Pt.
  - intros Hnd. by rewrite Pd.
  - intros t d Hin. split.
    + rewrite <- Pt. apply elem_of_app. left.
      by apply (list_elem_of_fmap_2 fst _ (t, d)).
    + rewrite <- Pd. apply elem_of_app. left.
      by apply (list_elem_of_fmap_2 snd _ (t, d)).
  - intros t Hin. rewrite <- Pt. apply elem_of_app. by right.
  - intros d Hin. rewrite <- Pd. apply elem_of_app. by right.
Qed.

(** C3, at the failing input.  With one track, one detection and the
    track subset left to default, the default subset [np.arange(1)] holds
    the index 0 and so is false: the call takes the "nothing to match"
    exit with a non-empty track subset, whatever the cost function and
    the solver are. *)
Theorem min_cost_matching_default_one_track
    (distance_metric : DistanceMetric) (max_distance : Q)
    (t : Track) (d : Detection) :
  min_cost_matching distance_metric max_distance [t] [d]
                    None (Some (PyList [0])) =
  Ok ([], NdArray [0], PyList [0]).
Proof. reflexivity. Qed.

(** With a default subset of two or more entries the truth test itself
    raises [ValueError]. *)
Lemma min_cost_matching_default_raises
    (distance_metric : DistanceMetric) (max_distance : Q)
    (t1 t2 : Track) (tracks : list Track) (detections : list Detection)
    (detection_indices : option IndexSeq) :
  min_cost_matching distance_metric max_distance (t1 :: t2 :: tracks)
                    detections None detection_indices =
  Raise ValueError.
Proof. reflexivity. Qed.

(** For subsets given as lists the exit is taken exactly when one of
    them is empty. *)
Lemma min_cost_matching_lists_nothing_iff
    (distance_metric : DistanceMetric) (max_distance : Q)
    (tracks : list Track) (detections : list Detection)
    (ti di : list nat) :
  (ti = [] ∨ di = [] →
   min_cost_matching distance_metric max_distance tracks detections
     (Some (PyList ti)) (Some (PyList di)) = Ok ([], PyList ti, PyList di)) ∧
  (ti ≠ [] → di ≠ [] →
   min_cost_matching distance_metric max_distance tracks detections
     (Some (PyList ti)) (Some (PyList di)) =
   cost_matrix ← distance_metric tracks detections (PyList ti) (PyList di);
   let cost_matrix := clamp max_distance cost_matrix in
   let indices := linear_assignment cost_matrix in
   '(matches, unmatched_tracks, unmatched_detections) ←
     foldM (assign_pair (PyList ti) (PyList di) cost_matrix max_distance)
           ([], (filter (λ p, p.1 ∉ indices.*1) (enumerate ti)).*2,
            (filter (λ p, p.1 ∉ indices.*2) (enumerate di)).*2) indices;
   Ok (matches, PyList unmatched_tracks, PyList unmatched_detections)).
Proof.
  split.
  - intros Hor. apply min_cost_matching_nothing. simpl.
    destruct ti as [|]; [by left|]. destruct Hor as [?| ->]; [done|].
    right. done.
  - intros Ht Hd. unfold min_cost_matching. simpl.
    rewrite !bool_decide_eq_false_2 by done. reflexivity.
Qed.

End matcher_correct.

(** ** The matcher with a cheapest assignment *)

Lemma valid_assignment_perm (R C : nat) (a b : list (nat * nat)) :
  a ≡ₚ b → valid_assignment R C a → valid_assignment R C b.
Proof.
  intros Hp (Hr & Hc & Ha). split_and!.
  - by rewrite <- Hp.
  - by rewrite <- Hp.
  - by rewrite <- Hp.
Qed.

Lemma valid_assignment_length (R C : nat) (a : list (nat * nat)) :
  valid_assignment R C a → length a ≤ min R C.
Proof.
  intros (Hr & Hc & Ha). rewrite Forall_forall in Ha.
  assert (length a.*1 ≤ length (seq 0 R)) as H1.
  { apply submseteq_length, NoDup_submseteq; [done|].
    intros x ([r c] & -> & Hin)%list_elem_of_fmap.
    apply elem_of_seq. destruct (Ha _ Hin). simpl in *. lia. }
  assert (length a.*2 ≤ length (seq 0 C)) as H2.
  { apply submseteq_length, NoDup_submseteq; [done|].
    intros x ([r c] & -> & Hin)%list_elem_of_fmap.
    apply elem_of_seq. destruct (Ha _ Hin). simpl in *. lia. }
  rewrite length_fmap, length_seq in H1, H2. lia.
Qed.

Lemma total_cost_perm (m : Matrix) (a b : list (nat * nat)) :
  a ≡ₚ b → (total_cost m a == total_cost m b)%Q.
Proof.
  induction 1 as [|x a b _ IH|x y a|a b c _ IH1 _ IH2]; simpl.
  - reflexivity.
  - rewrite IH. reflexivity.
  - lra.
  - by rewrite IH1.
Qed.

(** When the clamp value is above the threshold, a clamped entry that
    reaches it was above [max_distance] before. *)
Lemma clamp_entry_reaches (max_distance c : Q) :
  clamp_exceeds max_distance →
  (float_add max_distance EPS <= clamp_entry max_distance c)%Q →
  (max_distance < c)%Q.
Proof.
  intros Hex. unfold clamp_exceeds in Hex. unfold clamp_entry.
  destruct (Qgtb c max_distance) eqn:E.
  - intros _. by apply Qgtb_spec.
  - apply Qgtb_false in E. lra.
Qed.

Lemma clamp_entry_above (max_distance c : Q) :
  (max_distance < c)%Q →
  clamp_entry max_distance c = float_add max_distance EPS.
Proof.
  intros Hgt. unfold clamp_entry.
  by rewrite (proj2 (Qgtb_spec c max_distance) Hgt).
Qed.

Lemma untouched_elem (used l : list nat) (r t : nat) :
  NoDup l → l !! r = Some t → t ∈ untouched used l ↔ r ∉ used.
Proof.
  intros Hnd Hr. unfold untouched. rewrite list_elem_of_fmap. split.
  - intros (i & Hi & Hin). apply list_elem_of_filter in Hin as [Hni Hin].
    apply elem_of_seq in Hin.
    assert (l !! i = Some t) as Hl.
    { rewrite Hi. apply list_lookup_lookup_total_lt. lia. }
    by rewrite (NoDup_lookup l r i t Hnd Hr Hl).
  - intros Hni. exists r. split.
    + symmetry. by apply list_lookup_total_correct.
    + apply list_elem_of_filter. split; [done|].
      apply elem_of_seq. apply lookup_lt_Some in Hr. lia.
Qed.

Lemma picked_elem (l rs : list nat) (r t : nat) :
  NoDup l → l !! r = Some t → Forall (λ i, i < length l) rs →
  t ∈ (l !!!.) <$> rs ↔ r ∈ rs.
Proof.
  intros Hnd Hr Hlt. rewrite Forall_forall in Hlt.
  rewrite list_elem_of_fmap. split.
  - intros (i & Hi & Hin).
    assert (l !! i = Some t) as Hl.
    { rewrite Hi. apply list_lookup_lookup_total_lt. by apply Hlt. }
    by rewrite (NoDup_lookup l r i t Hnd Hr Hl).
  - intros Hin. exists r. split; [|done].
    symmetry. by apply list_lookup_total_correct.
Qed.

Lemma valid_assignment_row_inj (R C : nat) (a : list (nat * nat))
    (r c1 c2 : nat) :
  valid_assignment R C a → (r, c1) ∈ a → (r, c2) ∈ a → c1 = c2.
Proof.
  intros Hv H1 H2. apply elem_of_Permutation in H1 as [rest Hp].
  pose proof (valid_assignment_perm _ _ _ _ Hp Hv) as (Hr & _ & _).
  rewrite Hp in H2. apply elem_of_cons in H2 as [Heq|Hin]; [congruence|].
  rewrite fmap_cons in Hr. apply NoDup_cons in Hr as [Hni _].
  destruct Hni. by apply (list_elem_of_fmap_2 fst _ (r, c2)).
Qed.

Lemma rejected_elem (max_distance : Q) (m : Matrix) (a : list (nat * nat))
    (r c : nat) :
  (r, c) ∈ rejected max_distance m a ↔
  (r, c) ∈ a ∧ (max_distance < entry m r c)%Q.
Proof.
  unfold rejected. rewrite list_elem_of_filter. simpl.
  rewrite <- Qgtb_spec. split.
  - intros [Hg ?]. split; [done|]. by apply Is_true_true_1.
  - intros [? Hg]. split; [|done]. by apply Is_true_true_2.
Qed.

(** An assignment of [min(R, C)] pairs leaves no row and column both
    free. *)
Lemma unchosen_pair_absurd (R C : nat) (a : list (nat * nat)) (r c : nat) :
  valid_assignment R C a → length a = min R C → r < R → c < C →
  r ∉ a.*1 → c ∉ a.*2 → False.
Proof.
  intros (Hnr & Hnc & Ha) Hlen Hr Hc Hrow Hcol.
  assert (valid_assignment R C ((r, c) :: a)) as Hv'.
  { split_and!.
    - rewrite fmap_cons. by apply NoDup_cons.
    - rewrite fmap_cons. by apply NoDup_cons.
    - by constructor. }
  apply valid_assignment_length in Hv'. simpl in Hv'. lia.
Qed.

(** The exchange argument.  Take a row and a column of the cost matrix
    that are both unmatched: each was either left out by the solver or
    chosen in a pair that was rejected.  If their own cost were within
    [max_distance], pairing them would give a cheaper assignment of the
    same size than the solver's.  When the clamp value is not above the
    threshold nothing is rejected, and no row and column are both
    unmatched. *)
Lemma unmatched_pair_infeasible (max_distance : Q) (cm : Matrix)
    (R C : nat) (a : list (nat * nat)) (r c : nat) :
  shape cm R C →
  optimal_assignment (clamp max_distance cm) R C a →
  r < R → c < C →
  r ∉ a.*1 ∨ r ∈ (rejected max_distance (clamp max_distance cm) a).*1 →
  c ∉ a.*2 ∨ c ∈ (rejected max_distance (clamp max_distance cm) a).*2 →
  (max_distance < entry cm r c)%Q.
Proof.
  intros Hs (Hv & Hlen & Hopt) Hr Hc Hrow Hcol.
  pose proof Hv as (_ & _ & Hin_range).
  destruct (Qlt_le_dec max_distance (float_add max_distance EPS))
    as [Hex|Hab].
  2: { exfalso.
       assert (¬ clamp_exceeds max_distance) as Hno by (by apply Qle_not_lt).
       rewrite (rejected_clamp_absorbed max_distance cm R C a Hno Hs
                  Hin_range) in Hrow, Hcol.
       destruct Hrow as [Hrow|Hrow]; [|by apply elem_of_nil in Hrow].
       destruct Hcol as [Hcol|Hcol]; [|by apply elem_of_nil in Hcol].
       by apply (unchosen_pair_absurd R C a r c). }
  rewrite (rejected_clamp max_distance cm R C a Hex Hs Hin_range)
    in Hrow, Hcol.
  apply (clamp_entry_reaches _ _ Hex).
  rewrite <- (entry_clamp max_distance cm R C r c Hs Hr Hc).
  set (m' := clamp max_distance cm) in *.
  assert (Hrej : ∀ r1 c1, (r1, c1) ∈ rejected max_distance cm a →
            (r1, c1) ∈ a ∧ r1 < R ∧ c1 < C ∧
            entry m' r1 c1 = float_add max_distance EPS).
  { intros r1 c1 [Hin Hgt]%rejected_elem.
    destruct Hv as (_ & _ & Ha). rewrite Forall_forall in Ha.
    destruct (Ha _ Hin) as [Hr1 Hc1]. simpl in *. split_and!; try done.
    subst m'. rewrite (entry_clamp max_distance cm R C r1 c1 Hs Hr1 Hc1).
    by apply clamp_entry_above. }
  destruct Hrow as [Hrow|([r1 c'] & Hr1 & Hrow)%list_elem_of_fmap];
    destruct Hcol as [Hcol|([r' c1] & Hc1 & Hcol)%list_elem_of_fmap];
    simpl in *; subst.
  - (* neither the row nor the column was chosen *)
    by destruct (unchosen_pair_absurd R C a r c).
  - (* the column was chosen with another row and rejected *)
    destruct (Hrej _ _ Hcol) as (Hin & Hr' & _ & He).
    apply elem_of_Permutation in Hin as [rest Hp].
    pose proof (valid_assignment_perm _ _ _ _ Hp Hv) as (Hnr & Hnc & Ha).
    assert (valid_assignment R C ((r, c1) :: rest)) as Hv'.
    { rewrite fmap_cons in Hnr, Hnc. simpl in *.
      apply NoDup_cons in Hnr as [? ?]. apply Forall_cons in Ha as [? ?].
      split_and!; rewrite ?fmap_cons; simpl; try done.
      - apply NoDup_cons. split; [|done]. intros Hin. apply Hrow.
        rewrite Hp, fmap_cons. by right.
      - constructor; [by simpl|done]. }
    specialize (Hopt _ Hv'). rewrite (total_cost_perm _ _ _ Hp) in Hopt.
    simpl in Hopt. rewrite He in Hopt.
    assert (length ((r, c1) :: rest) = min R C) as Hl.
    { rewrite <- Hlen, Hp. done. }
    specialize (Hopt Hl). lra.
  - (* the row was chosen with another column and rejected *)
    destruct (Hrej _ _ Hrow) as (Hin & _ & Hc' & He).
    apply elem_of_Permutation in Hin as [rest Hp].
    pose proof (valid_assignment_perm _ _ _ _ Hp Hv) as (Hnr & Hnc & Ha).
    assert (valid_assignment R C ((r1, c) :: rest)) as Hv'.
    { rewrite fmap_cons in Hnr, Hnc. simpl in *.
      apply NoDup_cons in Hnc as [? ?]. apply Forall_cons in Ha as [? ?].
      split_and!; rewrite ?fmap_cons; simpl; try done.
      - apply NoDup_cons. split; [|done]. intros Hin. apply Hcol.
        rewrite Hp, fmap_cons. by right.
      - constructor; [by simpl|done]. }
    specialize (Hopt _ Hv'). rewrite (total_cost_perm _ _ _ Hp) in Hopt.
    simpl in Hopt. rewrite He in Hopt.
    assert (length ((r1, c) :: rest) = min R C) as Hl.
    { rewrite <- Hlen, Hp. done. }
    specialize (Hopt Hl). lra.
  - (* both were chosen, in rejected pairs *)
    destruct (Hrej _ _ Hrow) as (Hin1 & _ & Hc' & He1).
    destruct (Hrej _ _ Hcol) as (Hin2 & Hr' & _ & He2).
    destruct (decide (r1 = r')) as [->|Hne].
    { rewrite (valid_assignment_row_inj R C a r' c1 c' Hv Hin2 Hin1).
      rewrite He1. lra. }
    apply elem_of_Permutation in Hin1 as [rest1 Hp1].
    rewrite Hp1 in Hin2. apply elem_of_cons in Hin2 as [?|Hin2];
      [congruence|].
    apply elem_of_Permutation in Hin2 as [rest Hp2].
    rewrite Hp2 in Hp1.
    pose proof (valid_assignment_perm _ _ _ _ Hp1 Hv) as (Hnr & Hnc & Ha).
    assert (valid_assignment R C ((r1, c1) :: (r', c') :: rest)) as Hv'.
    { rewrite !fmap_cons in Hnr, Hnc. simpl in *.
      apply Forall_cons in Ha as [? Ha]. apply Forall_cons in Ha as [? ?].
      split_and!; rewrite ?fmap_cons; simpl; try done.
      - by rewrite (Permutation_swap c' c1).
      - repeat constructor; simpl; try done. }
    specialize (Hopt _ Hv'). rewrite (total_cost_perm _ _ _ Hp1) in Hopt.
    simpl in Hopt. rewrite He1, He2 in Hopt.
    assert (length ((r1, c1) :: (r', c') :: rest) = min R C) as Hl.
    { rewrite <- Hlen, Hp1. done. }
    specialize (Hopt Hl).
    assert (entry m' r' c' <= float_add max_distance EPS)%Q.
    { subst m'. rewrite (entry_clamp max_distance cm R C r' c' Hs Hr' Hc').
      by apply clamp_entry_le. }
    lra.
Qed.

Section matcher_optimal.
Context `{!AssignmentSolver}.

(** C2, as amended: indices can be left unmatched although they have a
    partner within [max_distance], when the solver gave that partner to
    another index.  What holds, for non-empty subsets without
    repetition and a solver that returns a cheapest one-to-one assignment
    of [min(R, C)] pairs, is that an unmatched track and an unmatched
    detection of the same call always have a cost above
    [max_distance]. *)
Theorem min_cost_matching_unmatched_pairs_infeasible
    (distance_metric : DistanceMetric) (max_distance : Q)
    (tracks : list Track) (detections : list Detection)
    (ti di : list nat) (cm : Matrix) :
  ti ≠ [] → di ≠ [] → NoDup ti → NoDup di →
  distance_metric tracks detections (PyList ti) (PyList di) = Ok cm →
  shape cm (length ti) (length di) →
  optimal_assignment (clamp max_distance cm) (length ti) (length di)
                     (linear_assignment (clamp max_distance cm)) →
  ∃ matches ut ud,
    min_cost_matching distance_metric max_distance tracks detections
      (Some (PyList ti)) (Some (PyList di)) =
    Ok (matches, PyList ut, PyList ud) ∧
    ∀ r c t d, ti !! r = Some t → di !! c = Some d →
               t ∈ ut → d ∈ ud → (max_distance < entry cm r c)%Q.
Proof.
  intros Hti Hdi Hnt Hnd Hcm Hs Hopt.
  pose proof Hopt as (Hv & _ & _).
  rewrite (min_cost_matching_run distance_metric max_distance tracks
             detections (PyList ti) (PyList di) cm); try done.
  2: { simpl. by rewrite bool_decide_eq_false_2. }
  2: { simpl. by rewrite bool_decide_eq_false_2. }
  simpl. eexists _, _, _. split; [reflexivity|].
  intros r c t d Hr Hc Ht Hd.
  pose proof (lookup_lt_Some _ _ _ Hr) as Hrlt.
  pose proof (lookup_lt_Some _ _ _ Hc) as Hclt.
  assert (Hin : Forall (λ rc : nat * nat, rc.1 < length ti ∧ rc.2 < length di)
                  (rejected max_distance (clamp max_distance cm)
                            (chosen max_distance cm))).
  { destruct Hv as (_ & _ & Ha). rewrite Forall_forall in Ha |- *.
    intros [r1 c1] [H1 _]%rejected_elem. by apply Ha. }
  apply (unmatched_pair_infeasible max_distance cm (length ti) (length di)
           (chosen max_distance cm) r c Hs Hopt Hrlt Hclt).
  - unfold matcher_unmatched_tracks in Ht.
    apply elem_of_app in Ht as [Ht|Ht].
    + left. by apply (untouched_elem _ ti r t Hnt Hr).
    + right.
      assert ((λ rc : nat * nat, ti !!! rc.1) <$>
                rejected max_distance (clamp max_distance cm)
                         (chosen max_distance cm) =
              (ti !!!.) <$> (rejected max_distance (clamp max_distance cm)
                               (chosen max_distance cm)).*1) as Heq
        by (by rewrite <- list_fmap_compose).
      rewrite Heq in Ht.
      apply (picked_elem ti _ r t Hnt Hr); [|done].
      apply Forall_fmap. eapply Forall_impl; [exact Hin|]. by intros ? [? _].
  - unfold matcher_unmatched_detections in Hd.
    apply elem_of_app in Hd as [Hd|Hd].
    + left. by apply (untouched_elem _ di c d Hnd Hc).
    + right.
      assert ((λ rc : nat * nat, di !!! rc.2) <$>
                rejected max_distance (clamp max_distance cm)
                         (chosen max_distance cm) =
              (di !!!.) <$> (rejected max_distance (clamp max_distance cm)
                               (chosen max_distance cm)).*2) as Heq
        by (by rewrite <- list_fmap_compose).
      rewrite Heq in Hd.
      apply (picked_elem di _ c d Hnd Hc); [|done].
      apply Forall_fmap. eapply Forall_impl; [exact Hin|]. by intros ? [_ ?].
Qed.

End matcher_optimal.

(** ** The cascade: [matching_cascade] *)

Lemma select_in_range {A} `{!Inhabited A} (p : A → bool) (xs : list A)
    (ks : list nat) :
  Forall (λ k, k < length xs) ks →
  select p xs ks = Ok (filter (λ k, p (xs !!! k)) ks).
Proof.
  induction 1 as [|k ks Hk _ IH]; [done|].
  simpl. rewrite (index_lt xs k Hk), bind_Ok, IH, bind_Ok, filter_cons.
  destruct (p (xs !!! k)) eqn:E.
  - rewrite (decide_True (P:=Is_true true)) by exact I. done.
  - rewrite (decide_False (P:=Is_true false)) by (intros []). done.
Qed.

Lemma gather_in_range {A B} `{!Inhabited A} (f : A → B) (xs : list A)
    (ks : list nat) :
  Forall (λ k, k < length xs) ks →
  gather f xs ks = Ok ((λ k, f (xs !!! k)) <$> ks).
Proof.
  induction 1 as [|k ks Hk _ IH]; [done|].
  simpl. by rewrite (index_lt xs k Hk), bind_Ok, IH, bind_Ok.
Qed.

Lemma select_level_tracks (tracks : list Track) (ti : list nat)
    (level : nat) :
  Forall (λ k, k < length tracks) ti →
  select (λ t, bool_decide (time_since_update t = 1 + level)) tracks ti =
  Ok (level_tracks tracks ti level).
Proof.
  intros Hti. rewrite (select_in_range _ _ _ Hti). f_equal.
  unfold level_tracks. apply list_filter_iff. intros k.
  apply bool_decide_spec.
Qed.

Section cascade_facts.
Context `{!AssignmentSolver, !SetOrder}.

Lemma cascade_levels_cons (distance_metric : DistanceMetric)
    (max_distance : Q) (tracks : list Track) (detections : list Detection)
    (ti : IndexSeq) (L : nat) (rest : list nat) (ms : list (nat * nat))
    (pool : IndexSeq) :
  cascade_levels distance_metric max_distance tracks detections ti
                 (L :: rest) ms pool =
  if bool_decide (length (items pool) = 0) then Ok (ms, pool)
  else
    til ← select (λ t, bool_decide (time_since_update t = 1 + L))
                 tracks (items ti);
    if bool_decide (length til = 0) then
      cascade_levels distance_metric max_distance tracks detections ti
                     rest ms pool
    else
      '(ml, _, pool') ←
        min_cost_matching distance_metric max_distance tracks detections
                          (Some (PyList til)) (Some pool);
      cascade_levels distance_metric max_distance tracks detections ti
                     rest (ms ++ ml) pool'.
Proof. reflexivity. Qed.

Lemma cascade_levels_no_detections (distance_metric : DistanceMetric)
    (max_distance : Q) (tracks : list Track) (detections : list Detection)
    (ti : IndexSeq) (levels : list nat) (ms : list (nat * nat))
    (pool : IndexSeq) :
  items pool = [] →
  cascade_levels distance_metric max_distance tracks detections ti levels
                 ms pool = Ok (ms, pool).
Proof. intros Hp. destruct levels; simpl; [done|]. by rewrite Hp. Qed.

(** Running the levels [l1 ++ l2] is running [l1] and then [l2] from
    the state reached: the [break] leaves a state on which every later
    level breaks again. *)
Lemma cascade_levels_app (distance_metric : DistanceMetric)
    (max_distance : Q) (tracks : list Track) (detections : list Detection)
    (ti : IndexSeq) (l1 l2 : list nat) (ms : list (nat * nat))
    (pool : IndexSeq) :
  cascade_levels distance_metric max_distance tracks detections ti
                 (l1 ++ l2) ms pool =
  '(ms', pool') ← cascade_levels distance_metric max_distance tracks
                     detections ti l1 ms pool;
  cascade_levels distance_metric max_distance tracks detections ti l2
                 ms' pool'.
Proof.
  revert ms pool. induction l1 as [|L l1 IH]; intros ms pool; [done|].
  simpl. case_bool_decide as Hp.
  { rewrite bind_Ok. symmetry. apply cascade_levels_no_detections.
    by apply length_zero_iff_nil. }
  destruct (select _ tracks (items ti)) as [til|e]; [|done].
  rewrite !bind_Ok. case_bool_decide; [by apply IH|].
  destruct (min_cost_matching _ _ _ _ _ _) as [[[ml utl] pool1]|e];
    [|done].
  rewrite !bind_Ok. apply IH.
Qed.

End cascade_facts.

Section cascade_correct.
Context `{!AssignmentSolver, !SetOrder}.

(** The part of the solver's contract (§4.1) that the cascade relies on:
    on every matrix the answer is one-to-one and within the matrix. *)
Hypothesis solver_valid :
  ∀ m R C, shape m R C → valid_assignment R C (linear_assignment m).

(** [list(s)] lists the elements of [s], each once. *)
Hypothesis list_of_set_elem : ∀ s k, k ∈ list_of_set s ↔ k ∈ s.
Hypothesis list_of_set_NoDup : ∀ s, NoDup (list_of_set s).

Variable distance_metric : DistanceMetric.
Variable max_distance : Q.
Variable tracks : list Track.
Variable detections : list Detection.
Variable ti : list nat.

Hypothesis metric_shaped : well_shaped distance_metric tracks detections.
Hypothesis ti_in_range : Forall (λ k, k < length tracks) ti.

Local Abbreviation levels_from :=
  (cascade_levels distance_metric max_distance tracks detections
                  (PyList ti)).
Local Abbreviation matcher :=
  (min_cost_matching distance_metric max_distance tracks detections).

Lemma level_tracks_in_range (L : nat) :
  Forall (λ k, k < length tracks) (level_tracks tracks ti L).
Proof.
  rewrite Forall_forall in ti_in_range |- *.
  intros k [_ Hk]%list_elem_of_filter. by apply ti_in_range.
Qed.

(** One level of the loop: it breaks on an empty pool, skips a level
    without tracks, and otherwise hands the level's tracks and the pool
    to the matcher, which reaches the solver. *)
Lemma cascade_level_run (L : nat) (rest : list nat)
    (ms : list (nat * nat)) (pool : list nat) :
  Forall (λ k, k < length detections) pool →
  (pool = [] ∧ levels_from (L :: rest) ms (PyList pool) =
               Ok (ms, PyList pool)) ∨
  (pool ≠ [] ∧ level_tracks tracks ti L = [] ∧
   levels_from (L :: rest) ms (PyList pool) =
   levels_from rest ms (PyList pool)) ∨
  (pool ≠ [] ∧ level_tracks tracks ti L ≠ [] ∧
   ∃ cm,
     let til := level_tracks tracks ti L in
     let ml := matcher_matches max_distance cm til pool in
     let pool' := matcher_unmatched_detections max_distance cm pool in
     valid_assignment (length til) (length pool) (chosen max_distance cm) ∧
     matcher (Some (PyList til)) (Some (PyList pool)) =
       Ok (ml, PyList (matcher_unmatched_tracks max_distance cm til),
           PyList pool') ∧
     levels_from (L :: rest) ms (PyList pool) =
       levels_from rest (ms ++ ml) (PyList pool')).
Proof.
  intros Hpool. rewrite cascade_levels_cons.
  destruct pool as [|d pool]; [by left|]. right.
  rewrite bool_decide_eq_false_2 by done. cbn [items].
  rewrite (select_level_tracks tracks ti L ti_in_range), bind_Ok.
  destruct (level_tracks tracks ti L) as [|k til] eqn:Etil.
  { left. by rewrite bool_decide_eq_true_2. }
  right. rewrite bool_decide_eq_false_2 by done.
  split; [done|]. split; [done|].
  destruct (metric_shaped (PyList (k :: til)) (PyList (d :: pool)))
    as (cm & Hcm & Hs).
  { simpl. rewrite <- Etil. apply level_tracks_in_range. }
  { done. }
  exists cm. simpl.
  assert (valid_assignment (length (k :: til)) (length (d :: pool))
                           (chosen max_distance cm)) as Hv.
  { apply solver_valid, shape_clamp, Hs. }
  pose proof (min_cost_matching_run distance_metric max_distance tracks
                detections (PyList (k :: til)) (PyList (d :: pool)) cm
                eq_refl eq_refl Hcm Hs Hv) as Hrun.
  simpl in Hrun. split; [done|]. split; [done|].
  by rewrite Hrun, bind_Ok.
Qed.

(** What a run over any list of levels does to matches and pool. *)
Lemma cascade_levels_spec (levels : list nat) (ms : list (nat * nat))
    (pool : list nat) :
  Forall (λ k, k < length detections) pool →
  ∃ ms' pool',
    levels_from levels ms (PyList pool) = Ok (ms ++ ms', PyList pool') ∧
    ms'.*2 ++ pool' ≡ₚ pool ∧
    (∀ t d, (t, d) ∈ ms' →
       t ∈ ti ∧ ∃ L, L ∈ levels ∧
                     time_since_update (tracks !!! t) = 1 + L) ∧
    (NoDup ti → NoDup levels → NoDup ms'.*1).
Proof.
  revert ms pool. induction levels as [|L rest IH]; intros ms pool Hpool.
  { exists [], pool. simpl. rewrite app_nil_r.
    split_and!; [done|done| |intros _ _; constructor].
    intros t d Hin. by apply elem_of_nil in Hin. }
  destruct (cascade_level_run L rest ms pool Hpool)
    as [(-> & ->)|[(Hne & Htil & ->)|(Hne & Htil & cm & Hv & Hm & ->)]].
  - exists [], []. simpl. rewrite app_nil_r.
    split_and!; [done|done| |intros _ _; constructor].
    intros t d Hin. by apply elem_of_nil in Hin.
  - destruct (IH ms pool Hpool) as (ms' & pool' & -> & Hp & Ht & Hnd).
    exists ms', pool'. split_and!; try done.
    + intros t d Hin. destruct (Ht t d Hin) as (? & L' & ? & ?).
      split; [done|]. exists L'. split; [by right|done].
    + intros Hti [_ Hrest]%NoDup_cons. by apply Hnd.
  - simpl in *.
    set (til := level_tracks tracks ti L) in *.
    set (ml := matcher_matches max_distance cm til pool) in *.
    set (pool1 := matcher_unmatched_detections max_distance cm pool) in *.
    pose proof (matcher_detections_perm max_distance cm til pool Hv) as Pd.
    pose proof (matcher_tracks_perm max_distance cm til pool Hv) as Pt.
    fold ml pool1 in Pd. fold ml in Pt.
    assert (Forall (λ k, k < length detections) pool1) as Hpool1.
    { rewrite Forall_forall in Hpool |- *. intros x Hx. apply Hpool.
      rewrite <- Pd. apply elem_of_app. by right. }
    destruct (IH (ms ++ ml) pool1 Hpool1)
      as (ms' & pool' & -> & Hp & Ht & Hnd).
    exists (ml ++ ms'), pool'.
    assert (∀ t d, (t, d) ∈ ml →
              t ∈ ti ∧ time_since_update (tracks !!! t) = 1 + L) as Hml.
    { intros t d Hin.
      assert (t ∈ til) as Htl.
      { rewrite <- Pt. apply elem_of_app. left.
        by apply (list_elem_of_fmap_2 fst _ (t, d)). }
      apply list_elem_of_filter in Htl as [? ?]. done. }
    split_and!.
    + by rewrite app_assoc.
    + rewrite fmap_app, <- app_assoc, Hp. done.
    + intros t d [Hin|Hin]%elem_of_app.
      * destruct (Hml t d Hin). split; [done|].
        exists L. split; [by left|done].
      * destruct (Ht t d Hin) as (? & L' & ? & ?).
        split; [done|]. exists L'. split; [by right|done].
    + intros Hti [HL Hrest]%NoDup_cons. rewrite fmap_app.
      apply NoDup_app. split_and!.
      * assert (NoDup (ml.*1 ++ matcher_unmatched_tracks max_distance cm til))
          as Hn by (rewrite Pt; by apply NoDup_filter).
        by apply NoDup_app in Hn as [? _].
      * intros t ([t' d] & -> & Hin)%list_elem_of_fmap
                 ([t'' d'] & Heq & Hin')%list_elem_of_fmap.
        simpl in *. subst t''.
        destruct (Hml _ _ Hin) as [_ E1].
        destruct (Ht _ _ Hin') as (_ & L' & HL' & E2).
        assert (L' = L) by lia. by subst L'.
      * by apply Hnd.
Qed.

Local Abbreviation state_at :=
  (cascade_state_at distance_metric max_distance tracks detections
                    (PyList ti)).

Lemma cascade_state_at_split (di : IndexSeq) (L n : nat) :
  L ≤ n →
  state_at di n =
  '(ms, pool) ← state_at di L; levels_from (seq L (n - L)) ms pool.
Proof.
  intros Hle. unfold cascade_state_at.
  replace n with (L + (n - L)) at 1 by lia.
  by rewrite seq_app, cascade_levels_app.
Qed.

(** The state entering a level: the detections of its matches and its
    pool are the detection subset rearranged. *)
Lemma cascade_state_at_spec (di : list nat) (L : nat) :
  Forall (λ k, k < length detections) di →
  ∃ ms pool,
    state_at (PyList di) L = Ok (ms, PyList pool) ∧
    ms.*2 ++ pool ≡ₚ di ∧
    Forall (λ k, k < length detections) pool ∧
    (∀ t, t ∈ ms.*1 → t ∈ ti) ∧
    (NoDup ti → NoDup ms.*1).
Proof.
  intros Hdi.
  destruct (cascade_levels_spec (seq 0 L) [] di Hdi)
    as (ms & pool & Hrun & Hp & Ht & Hnd).
  exists ms, pool. split_and!; try done.
  - rewrite Forall_forall in Hdi |- *. intros x Hx. apply Hdi.
    rewrite <- Hp. apply elem_of_app. by right.
  - intros t ([t' d] & -> & Hin)%list_elem_of_fmap.
    by destruct (Ht _ _ Hin).
  - intros Hti. apply Hnd; [done|]. apply NoDup_seq.
Qed.

Lemma matching_cascade_unfold (cascade_depth : Z)
    (track_indices detection_indices : option IndexSeq) (di : IndexSeq) :
  default (PyList (seq 0 (length tracks))) track_indices = PyList ti →
  default (PyList (seq 0 (length detections))) detection_indices = di →
  matching_cascade distance_metric max_distance cascade_depth tracks
                   detections track_indices detection_indices =
  '(matches, unmatched_detections) ←
     state_at di (Z.to_nat cascade_depth);
  Ok (matches,
      list_of_set (list_to_set ti ∖ list_to_set matches.*1),
      unmatched_detections).
Proof.
  intros Hti Hdi. unfold matching_cascade, cascade_state_at, range.
  cbv zeta. by rewrite Hti, Hdi.
Qed.

(** What a call of the cascade returns, for list subsets. *)
Lemma matching_cascade_spec (cascade_depth : Z)
    (track_indices detection_indices : option IndexSeq) (di : list nat) :
  default (PyList (seq 0 (length tracks))) track_indices = PyList ti →
  default (PyList (seq 0 (length detections))) detection_indices =
    PyList di →
  Forall (λ k, k < length detections) di →
  ∃ matches ut ud,
    matching_cascade distance_metric max_distance cascade_depth tracks
                     detections track_indices detection_indices =
    Ok (matches, ut, PyList ud) ∧
    matches.*2 ++ ud ≡ₚ di ∧
    (∀ t, t ∈ matches.*1 → t ∈ ti) ∧
    (NoDup ti → NoDup matches.*1) ∧
    (∀ k, k ∈ ut ↔ k ∈ ti ∧ k ∉ matches.*1) ∧
    NoDup ut.
Proof.
  intros Hti Hdi Hin.
  rewrite (matching_cascade_unfold _ _ _ (PyList di) Hti Hdi).
  destruct (cascade_state_at_spec di (Z.to_nat cascade_depth) Hin)
    as (matches & ud & Hrun & Hp & _ & Ht & Hnd).
  rewrite Hrun, bind_Ok. eexists _, _, _. split; [reflexivity|].
  split_and!; [done|done|done| |apply list_of_set_NoDup].
  intros k. rewrite list_of_set_elem, elem_of_difference.
  by rewrite !elem_of_list_to_set.
Qed.

(** C4. A call with the detection subset [di] (given as a list, or the
    default list of all detection indices), without repetition, returns;
    the detections of the returned matches together with the returned
    unmatched detections are [di] rearranged, each index once; and for
    levels [L < L'] of the loop, no detection matched by the end of level
    [L] is in the pool with which the run enters level [L']. *)
Theorem matching_cascade_detections_once (cascade_depth : Z)
    (track_indices detection_indices : option IndexSeq) (di : list nat) :
  default (PyList (seq 0 (length tracks))) track_indices = PyList ti →
  default (PyList (seq 0 (length detections))) detection_indices =
    PyList di →
  Forall (λ k, k < length detections) di → NoDup di →
  ∃ matches ut ud,
    matching_cascade distance_metric max_distance cascade_depth tracks
                     detections track_indices detection_indices =
    Ok (matches, ut, PyList ud) ∧
    matches.*2 ++ ud ≡ₚ di ∧
    NoDup (matches.*2 ++ ud) ∧
    ∀ L L', L < L' → L' < Z.to_nat cascade_depth →
      ∃ ms pool ms' pool',
        state_at (PyList di) (S L) = Ok (ms, PyList pool) ∧
        state_at (PyList di) L' = Ok (ms', PyList pool') ∧
        state_at (PyList di) (Z.to_nat cascade_depth) =
          levels_from (seq L' (Z.to_nat cascade_depth - L')) ms'
                      (PyList pool') ∧
        ∀ d, d ∈ ms.*2 → d ∉ pool'.
Proof.
  intros Hti Hdi Hin Hnd.
  rewrite (matching_cascade_unfold _ _ _ (PyList di) Hti Hdi).
  destruct (cascade_state_at_spec di (Z.to_nat cascade_depth) Hin)
    as (matches & ud & Hrun & Hp & _).
  rewrite Hrun, bind_Ok. eexists _, _, _. split; [reflexivity|].
  split; [done|]. split; [by rewrite Hp|].
  intros L L' HL HL'.
  destruct (cascade_state_at_spec di (S L) Hin)
    as (ms & pool & HrunL & HpL & HinL & _).
  exists ms, pool.
  pose proof (cascade_state_at_split (PyList di) (S L) L' HL) as Hsplit.
  rewrite HrunL, bind_Ok in Hsplit.
  destruct (cascade_levels_spec (seq (S L) (L' - S L)) ms pool HinL)
    as (ms1 & pool' & Hrun1 & Hp1 & _).
  rewrite Hrun1 in Hsplit. exists (ms ++ ms1), pool'.
  split_and!; try done.
  - rewrite <- Hrun.
    rewrite (cascade_state_at_split (PyList di) L'
               (Z.to_nat cascade_depth)) by lia.
    by rewrite Hsplit, bind_Ok.
  - intros d Hd Hd'.
    assert (NoDup (ms.*2 ++ pool)) as Hn by (by rewrite HpL).
    apply NoDup_app in Hn as (_ & Hdisj & _). apply (Hdisj d Hd).
    rewrite <- Hp1. apply elem_of_app. by right.
Qed.

(** C5. A call with track subset [ti] and detection subset [di] returns
    the state in which the loop over the levels [0 .. cascade_depth - 1]
    ends.  The loop enters level 0 with no matches and the pool [di].
    Entering level [L] with an empty pool ends the loop with the state as
    it is; with no track of [ti] at [time_since_update = L + 1] the level
    leaves the state unchanged; otherwise exactly those tracks and the
    pool go to the matcher, whose matches are appended and whose
    unmatched detections are the next pool.  The unmatched tracks
    returned are the members of [ti] that are the track of no match,
    each once. *)
Theorem matching_cascade_levels (cascade_depth : Z)
    (track_indices detection_indices : option IndexSeq) (di : list nat) :
  default (PyList (seq 0 (length tracks))) track_indices = PyList ti →
  default (PyList (seq 0 (length detections))) detection_indices =
    PyList di →
  Forall (λ k, k < length detections) di →
  ∃ matches ut ud,
    matching_cascade distance_metric max_distance cascade_depth tracks
                     detections track_indices detection_indices =
    Ok (matches, ut, PyList ud) ∧
    state_at (PyList di) (Z.to_nat cascade_depth) =
      Ok (matches, PyList ud) ∧
    state_at (PyList di) 0 = Ok ([], PyList di) ∧
    (∀ L, L < Z.to_nat cascade_depth →
       ∃ ms pool,
         state_at (PyList di) L = Ok (ms, PyList pool) ∧
         ((pool = [] ∧ matches = ms ∧ ud = pool ∧
           state_at (PyList di) (S L) = Ok (ms, PyList pool)) ∨
          (pool ≠ [] ∧
           filter (λ k, time_since_update (tracks !!! k) = L + 1) ti = [] ∧
           state_at (PyList di) (S L) = Ok (ms, PyList pool)) ∨
          (pool ≠ [] ∧
           filter (λ k, time_since_update (tracks !!! k) = L + 1) ti ≠ [] ∧
           ∃ ml utl pool',
             matcher
               (Some (PyList (filter
                  (λ k, time_since_update (tracks !!! k) = L + 1) ti)))
               (Some (PyList pool)) = Ok (ml, utl, PyList pool') ∧
             state_at (PyList di) (S L) = Ok (ms ++ ml, PyList pool')))) ∧
    (∀ k, k ∈ ut ↔ k ∈ ti ∧ k ∉ matches.*1) ∧
    NoDup ut.
Proof.
  intros Hti Hdi Hin.
  rewrite (matching_cascade_unfold _ _ _ (PyList di) Hti Hdi).
  destruct (cascade_state_at_spec di (Z.to_nat cascade_depth) Hin)
    as (matches & ud & Hrun & Hp & _).
  rewrite Hrun, bind_Ok. eexists _, _, _. split; [reflexivity|].
  split; [done|]. split; [reflexivity|]. split_and!.
  - intros L HL.
    destruct (cascade_state_at_spec di L Hin)
      as (ms & pool & HrunL & _ & HinL & _).
    exists ms, pool. split; [done|].
    assert (∀ L0, filter (λ k, time_since_update (tracks !!! k) = L0 + 1) ti
                  = level_tracks tracks ti L0) as Hlt.
    { intros L0. unfold level_tracks. apply list_filter_iff.
      intros k. lia. }
    rewrite Hlt.
    pose proof (cascade_state_at_split (PyList di) L (S L)) as Hstep.
    rewrite HrunL, bind_Ok in Hstep.
    replace (S L - L) with 1 in Hstep by lia. cbn [seq] in Hstep.
    destruct (cascade_level_run L [] ms pool HinL)
      as [(-> & Hl)|[(Hne & Htil & Hl)|(Hne & Htil & cm & Hv & Hm & Hl)]].
    + left. split; [done|].
      pose proof (cascade_state_at_split (PyList di) L
                    (Z.to_nat cascade_depth)) as Hend.
      rewrite HrunL, bind_Ok, cascade_levels_no_detections in Hend
        by done.
      rewrite Hend in Hrun by lia. inversion Hrun; subst.
      split_and!; [done|done|]. rewrite Hstep by lia. exact Hl.
    + right. left. split; [done|]. split; [done|].
      rewrite Hstep by lia. exact Hl.
    + right. right. split; [done|]. split; [done|].
      simpl in Hv, Hm. eexists _, _, _. split; [exact Hm|].
      rewrite Hstep by lia. exact Hl.
  - intros k. rewrite list_of_set_elem, elem_of_difference.
    by rewrite !elem_of_list_to_set.
  - apply list_of_set_NoDup.
Qed.

End cascade_correct.

(** ** The gating step: [get_cost_matrix] *)

Lemma foldM_app {A S} (body : S → A → result S) (s : S) (l1 l2 : list A) :
  foldM body s (l1 ++ l2) = s' ← foldM body s l1; foldM body s' l2.
Proof.
  revert s. induction l1 as [|x l1 IH]; intros s; [done|].
  simpl. destruct (body s x); [|done]. rewrite !bind_Ok. apply IH.
Qed.

Lemma dict_get_chi_square (only_position : bool) :
  dict_get chi_square (if only_position then 2 else 4) =
  Ok (if only_position then (59915 # 10000)%Q else (94877 # 10000)%Q).
Proof. by destruct only_position. Qed.

Lemma masked_lookup_total (mask : list bool) (value : Q) (row : list Q)
    (c : nat) :
  length mask = length row → c < length row →
  masked mask value row !!! c =
  if (mask !!! c : bool) then value else row !!! c.
Proof.
  intros Hlen Hc. apply list_lookup_total_correct.
  unfold masked. rewrite lookup_zip_with.
  rewrite (list_lookup_lookup_total_lt mask c) by lia.
  by rewrite (list_lookup_lookup_total_lt row c) by lia.
Qed.

Lemma mask_assign_spec (cm : Matrix) (R C row : nat) (mask : list bool)
    (value : Q) :
  shape cm R C → row < R → length mask = C →
  ∃ cm', mask_assign cm row mask value = Ok cm' ∧
         shape cm' R C ∧
         ∀ r c, r < R → c < C →
           entry cm' r c =
           if decide (r = row)
           then (if (mask !!! c : bool) then value else entry cm r c)
           else entry cm r c.
Proof.
  intros Hs Hrow Hmask. pose proof Hs as [HR HC].
  pose proof (shape_row cm R C row Hs Hrow) as Hlen.
  unfold mask_assign. rewrite index_lt by lia. rewrite bind_Ok.
  rewrite bool_decide_eq_true_2 by lia.
  eexists. split; [reflexivity|]. fold (masked mask value (cm !!! row)).
  split.
  - split; [by rewrite length_insert|].
    apply Forall_insert; [done|].
    unfold masked. rewrite length_zip_with. lia.
  - intros r c Hr Hc. unfold entry. case_decide as Hd.
    + subst r.
      rewrite (list_lookup_total_correct _ row (masked mask value (cm !!! row)))
        by (apply list_lookup_insert_eq; lia).
      apply masked_lookup_total; lia.
    + f_equal. apply list_lookup_total_correct.
      rewrite list_lookup_insert_ne by done.
      apply list_lookup_lookup_total_lt. lia.
Qed.

Section gating_correct.
Context `{!KalmanFilter}.

(** The filter's contract (§6): one squared distance per measurement. *)
Hypothesis gating_distance_length :
  ∀ m c measurements only_position,
    length (gating_distance m c measurements only_position) =
    length measurements.

(** The loop over the rows, run on the first [n] rows. *)
Lemma gating_rows_spec (cm : Matrix) (tracks : list Track)
    (detections : list Detection) (ti di : list nat)
    (only_position : bool) (thr value : Q) (n : nat) :
  shape cm (length ti) (length di) →
  Forall (λ k, k < length tracks) ti →
  n ≤ length ti →
  ∃ cm',
    foldM (λ cost_matrix '(row, track_idx),
             track ← index tracks track_idx;
             let distances :=
               gating_distance (mean track) (covariance track)
                 ((λ i, to_xyah (detections !!! i)) <$> di)
                 only_position in
             mask_assign cost_matrix row
               ((λ g, Qgtb g thr) <$> distances) value)
          cm ((λ i, (i, ti !!! i)) <$> seq 0 n) = Ok cm' ∧
    shape cm' (length ti) (length di) ∧
    ∀ r c, r < length ti → c < length di →
      entry cm' r c =
      if decide (r < n)
      then (if Qgtb (gating_row tracks detections ti di only_position r
                       !!! c) thr
            then value else entry cm r c)
      else entry cm r c.
Proof.
  intros Hs Hti. induction n as [|n IH]; intros Hn.
  { exists cm. split; [done|]. split; [done|]. intros r c _ _.
    by rewrite decide_False by lia. }
  destruct IH as (cm1 & Hrun & Hs1 & He1); [lia|].
  rewrite seq_S, fmap_app, foldM_app, Hrun, bind_Ok. simpl.
  rewrite Forall_forall in Hti.
  assert (ti !!! n < length tracks) as Hk.
  { apply Hti, list_elem_of_lookup. exists n.
    apply list_lookup_lookup_total_lt. lia. }
  rewrite (index_lt tracks _ Hk), bind_Ok.
  fold (gating_row tracks detections ti di only_position n).
  destruct (mask_assign_spec cm1 (length ti) (length di) n
              ((λ g, Qgtb g thr) <$>
                 gating_row tracks detections ti di only_position n)
              value Hs1)
    as (cm2 & Hm & Hs2 & He2); [lia| |].
  { unfold gating_row.
    by rewrite length_fmap, gating_distance_length, length_fmap. }
  rewrite Hm, bind_Ok. exists cm2. split; [done|]. split; [done|].
  intros r c Hr Hc. rewrite (He2 r c Hr Hc), (He1 r c Hr Hc).
  destruct (decide (r = n)) as [->|Hne].
  - rewrite decide_False by lia. rewrite decide_True by lia.
    rewrite (list_lookup_total_correct _ c
               (Qgtb (gating_row tracks detections ti di only_position n
                        !!! c) thr)); [done|].
    rewrite list_lookup_fmap.
    rewrite (list_lookup_lookup_total_lt
               (gating_row tracks detections ti di only_position n) c);
      [done|].
    unfold gating_row. by rewrite gating_distance_length, length_fmap.
  - destruct (decide (r < n)).
    + by rewrite decide_True by lia.
    + by rewrite decide_False by lia.
Qed.

(** A call on a matrix of the subsets' shape returns one of that
    shape. *)
Lemma get_cost_matrix_shape (cm : Matrix) (tracks : list Track)
    (detections : list Detection) (ti di : IndexSeq)
    (only_position : bool) :
  shape cm (length (items ti)) (length (items di)) →
  Forall (λ k, k < length tracks) (items ti) →
  Forall (λ k, k < length detections) (items di) →
  ∃ cm',
    get_cost_matrix cm tracks detections ti di None only_position =
      Ok cm' ∧
    shape cm' (length (items ti)) (length (items di)).
Proof.
  intros Hs Hti Hdi. unfold get_cost_matrix. cbv zeta.
  rewrite dict_get_chi_square, bind_Ok.
  rewrite (gather_in_range _ _ _ Hdi), bind_Ok.
  rewrite enumerate_lookup_total.
  destruct (gating_rows_spec cm tracks detections (items ti) (items di)
              only_position
              (if only_position then (59915 # 10000)%Q else (94877 # 10000)%Q)
              INFTY_COST (length (items ti)) Hs Hti (le_n _))
    as (cm' & Hrun & Hs' & _).
  by exists cm'.
Qed.

(** C6. On a cost matrix with one row per track index and one column
    per detection index, with the sentinel left to default, the call
    returns a matrix of that same shape in which the entry of a (track,
    detection) pair is [1e5] when the pair's gating distance is above
    the chi-square value for 2 degrees of freedom ([only_position]) or 4
    (otherwise), and is the input's entry when it is not. *)
Theorem get_cost_matrix_gates (cm : Matrix) (tracks : list Track)
    (detections : list Detection) (ti di : IndexSeq)
    (only_position : bool) :
  shape cm (length (items ti)) (length (items di)) →
  Forall (λ k, k < length tracks) (items ti) →
  Forall (λ k, k < length detections) (items di) →
  ∃ cm',
    get_cost_matrix cm tracks detections ti di None only_position =
      Ok cm' ∧
    shape cm' (length (items ti)) (length (items di)) ∧
    ∀ r c, r < length (items ti) → c < length (items di) →
      let d := gating_row tracks detections (items ti) (items di)
                          only_position r !!! c in
      let critical :=
        (if only_position then (59915 # 10000)%Q else (94877 # 10000)%Q) in
      ((critical < d)%Q → entry cm' r c = 100000%Q) ∧
      (¬ (critical < d)%Q → entry cm' r c = entry cm r c).
Proof.
  intros Hs Hti Hdi. unfold get_cost_matrix. cbv zeta.
  rewrite dict_get_chi_square, bind_Ok.
  rewrite (gather_in_range _ _ _ Hdi), bind_Ok.
  rewrite enumerate_lookup_total.
  destruct (gating_rows_spec cm tracks detections (items ti) (items di)
              only_position
              (if only_position then (59915 # 10000)%Q else (94877 # 10000)%Q)
              INFTY_COST (length (items ti)) Hs Hti (le_n _))
    as (cm' & Hrun & Hs' & He).
  exists cm'. split; [exact Hrun|]. split; [done|].
  intros r c Hr Hc. rewrite (He r c Hr Hc).
  rewrite decide_True by done.
  destruct (Qgtb _ _) eqn:E.
  - split; [done|]. intros Hn. destruct Hn. by apply Qgtb_spec.
  - split; [|done]. intros Hgt. apply Qgtb_spec in Hgt. congruence.
Qed.

End gating_correct.

(** ** The tracker: [Tracker._match] and [Tracker.update] *)

Lemma enumerate_filter_positions {A} `{!Inhabited A} (p : A → bool)
    (l : list A) :
  (filter (λ q, p q.2) (enumerate l)).*1 =
  filter (λ k, p (l !!! k)) (seq 0 (length l)).
Proof.
  rewrite enumerate_lookup_total, filter_fmap_comm, <- list_fmap_compose.
  simpl. apply list_fmap_id.
Qed.

Section matcher_total.
Context `{!AssignmentSolver}.

Hypothesis solver_valid :
  ∀ m R C, shape m R C → valid_assignment R C (linear_assignment m).

(** On list subsets within the track and detection lists the matcher
    always returns, and its outputs rearrange the subsets. *)
Lemma min_cost_matching_lists_spec (distance_metric : DistanceMetric)
    (max_distance : Q) (tracks : list Track) (detections : list Detection)
    (ti di : list nat) :
  well_shaped distance_metric tracks detections →
  Forall (λ k, k < length tracks) ti →
  Forall (λ k, k < length detections) di →
  ∃ ms ut ud,
    min_cost_matching distance_metric max_distance tracks detections
      (Some (PyList ti)) (Some (PyList di)) =
    Ok (ms, PyList ut, PyList ud) ∧
    ms.*1 ++ ut ≡ₚ ti ∧ ms.*2 ++ ud ≡ₚ di.
Proof.
  intros Hws Hti Hdi.
  destruct (decide (ti = [] ∨ di = [])) as [Hempty|Hne].
  { exists [], ti, di. split; [|done].
    apply min_cost_matching_nothing. simpl.
    destruct ti; [by left|]. destruct Hempty as [?| ->]; [done|].
    by right. }
  assert (ti ≠ [] ∧ di ≠ []) as [Hti' Hdi'].
  { split; intros ->; apply Hne; auto. }
  destruct (Hws (PyList ti) (PyList di) Hti Hdi) as (cm & Hcm & Hs).
  assert (valid_assignment (length ti) (length di)
                           (chosen max_distance cm)) as Hv.
  { apply solver_valid, shape_clamp, Hs. }
  rewrite (min_cost_matching_run distance_metric max_distance tracks
             detections (PyList ti) (PyList di) cm); try done.
  2: { simpl. by rewrite bool_decide_eq_false_2. }
  2: { simpl. by rewrite bool_decide_eq_false_2. }
  eexists _, _, _. split; [reflexivity|]. split.
  - apply (matcher_tracks_perm max_distance cm ti di Hv).
  - apply (matcher_detections_perm max_distance cm ti di Hv).
Qed.

End matcher_total.

Section tracker_correct.
Context `{!AssignmentSolver, !SetOrder, !KalmanFilter, !Collaborators}.

(** Contracts of the collaborators (§4.1, §6). *)
Hypothesis solver_valid :
  ∀ m R C, shape m R C → valid_assignment R C (linear_assignment m).
Hypothesis list_of_set_elem : ∀ s k, k ∈ list_of_set s ↔ k ∈ s.
Hypothesis list_of_set_NoDup : ∀ s, NoDup (list_of_set s).
Hypothesis gating_distance_length :
  ∀ m c measurements only_position,
    length (gating_distance m c measurements only_position) =
    length measurements.
(** [metric.distance(features, targets)]: one row per target, one column
    per feature. *)
Hypothesis metric_distance_shape :
  ∀ m fs ts, shape (metric_distance m fs ts) (length ts) (length fs).
Hypothesis iou_cost_shaped :
  ∀ tracks detections, well_shaped iou_cost tracks detections.

Lemma gated_metric_well_shaped (self : Tracker) (trs : list Track)
    (dets : list Detection) :
  well_shaped (gated_metric self) trs dets.
Proof.
  intros ti di Hti Hdi. unfold gated_metric.
  rewrite (gather_in_range _ _ _ Hdi), bind_Ok.
  rewrite (gather_in_range _ _ _ Hti), bind_Ok. cbv zeta.
  destruct (get_cost_matrix_shape gating_distance_length
              (metric_distance (metric self)
                 ((λ k, feature (dets !!! k)) <$> items di)
                 ((λ k, track_id (trs !!! k)) <$> items ti))
              trs dets ti di false) as (cm' & Hrun & Hs'); try done.
  - pose proof (metric_distance_shape (metric self)
                  ((λ k, feature (dets !!! k)) <$> items di)
                  ((λ k, track_id (trs !!! k)) <$> items ti)) as Hs.
    by rewrite !length_fmap in Hs.
  - by exists cm'.
Qed.

(** The two rounds of [_match] and what they return. *)
Lemma _match_spec (self : Tracker) (detections : list Detection) :
  ∃ ma uta uda mb utb udb,
    let trs := tracks self in
    let recent := filter (λ k, time_since_update (trs !!! k) = 1) uta in
    let stale := filter (λ k, time_since_update (trs !!! k) ≠ 1) uta in
    let candidates := unconfirmed_positions trs ++ recent in
    matching_cascade (gated_metric self)
      (matching_threshold (metric self)) (max_age self) trs detections
      (Some (PyList (confirmed_positions trs))) None =
      Ok (ma, uta, PyList uda) ∧
    min_cost_matching iou_cost (max_iou_distance self) trs detections
      (Some (PyList candidates)) (Some (PyList uda)) =
      Ok (mb, PyList utb, PyList udb) ∧
    _match self detections =
      Ok (ma ++ mb, list_of_set (list_to_set (stale ++ utb)),
          PyList udb) ∧
    ma.*2 ++ uda ≡ₚ seq 0 (length detections) ∧
    mb.*2 ++ udb ≡ₚ uda ∧
    mb.*1 ++ utb ≡ₚ candidates ∧
    (∀ t, t ∈ ma.*1 → t ∈ confirmed_positions trs) ∧
    NoDup ma.*1 ∧
    (∀ k, k ∈ uta ↔ k ∈ confirmed_positions trs ∧ k ∉ ma.*1) ∧
    NoDup uta.
Proof.
  set (trs := tracks self).
  assert (Forall (λ k, k < length trs) (confirmed_positions trs)) as Hconf.
  { apply Forall_forall. intros k [_ Hk]%list_elem_of_filter.
    apply elem_of_seq in Hk. lia. }
  assert (Forall (λ k, k < length detections) (seq 0 (length detections)))
    as Hdets.
  { apply Forall_forall. intros k Hk. apply elem_of_seq in Hk. lia. }
  destruct (matching_cascade_spec solver_valid list_of_set_elem
              list_of_set_NoDup (gated_metric self)
              (matching_threshold (metric self)) trs detections
              (confirmed_positions trs)
              (gated_metric_well_shaped self trs detections) Hconf
              (max_age self) (Some (PyList (confirmed_positions trs))) None
              (seq 0 (length detections)) eq_refl eq_refl Hdets)
    as (ma & uta & uda & Hcas & Hpa & Hta & Hnda & Huta & Hnduta).
  assert (Forall (λ k, k < length trs) uta) as Huta_lt.
  { apply Forall_forall. intros k Hk. apply Huta in Hk as [Hk _].
    rewrite Forall_forall in Hconf. by apply Hconf. }
  set (recent := filter (λ k, time_since_update (trs !!! k) = 1) uta).
  set (stale := filter (λ k, time_since_update (trs !!! k) ≠ 1) uta).
  assert (Forall (λ k, k < length trs)
                 (unconfirmed_positions trs ++ recent)) as Hcand.
  { apply Forall_app. split; apply Forall_forall; intros k.
    - intros [_ Hk]%list_elem_of_filter. apply elem_of_seq in Hk. lia.
    - intros [_ Hk]%list_elem_of_filter.
      rewrite Forall_forall in Huta_lt. by apply Huta_lt. }
  assert (Forall (λ k, k < length detections) uda) as Huda.
  { apply Forall_forall. intros k Hk.
    rewrite Forall_forall in Hdets. apply Hdets.
    rewrite <- Hpa. apply elem_of_app. by right. }
  destruct (min_cost_matching_lists_spec solver_valid iou_cost
              (max_iou_distance self) trs detections
              (unconfirmed_positions trs ++ recent) uda
              (iou_cost_shaped trs detections) Hcand Huda)
    as (mb & utb & udb & Hiou & Hptb & Hpdb).
  exists ma, uta, uda, mb, utb, udb. cbv zeta. fold trs recent stale.
  split_and!; try done.
  - unfold _match. cbv zeta. fold trs.
    rewrite (enumerate_filter_positions is_confirmed trs).
    rewrite (enumerate_filter_positions (λ t, negb (is_confirmed t)) trs).
    fold (confirmed_positions trs). fold (unconfirmed_positions trs).
    rewrite Hcas, bind_Ok.
    rewrite !(select_in_range _ trs uta Huta_lt), !bind_Ok.
    assert (filter (λ k, bool_decide (time_since_update (trs !!! k) = 1))
                   uta = recent) as ->.
    { apply list_filter_iff. intros k. apply bool_decide_spec. }
    assert (filter (λ k, negb (bool_decide
                                 (time_since_update (trs !!! k) = 1)))
                   uta = stale) as ->.
    { apply list_filter_iff. intros k.
      rewrite negb_True. by rewrite bool_decide_spec. }
    by rewrite Hiou, bind_Ok.
  - by apply Hnda, NoDup_filter, NoDup_seq.
Qed.

Lemma confirmed_positions_elem (trs : list Track) (k : nat) :
  k ∈ confirmed_positions trs ↔ k < length trs ∧ is_confirmed (trs !!! k).
Proof.
  unfold confirmed_positions. rewrite list_elem_of_filter, elem_of_seq.
  split; intros [? ?]; split; first [done | lia].
Qed.

Lemma unconfirmed_positions_elem (trs : list Track) (k : nat) :
  k ∈ unconfirmed_positions trs ↔
  k < length trs ∧ ¬ is_confirmed (trs !!! k).
Proof.
  unfold unconfirmed_positions. rewrite list_elem_of_filter, elem_of_seq.
  rewrite negb_True. split; intros [? ?]; split; first [done | lia].
Qed.

(** C7. The IOU round of [_match] is the matcher run, with the IOU cost
    and [max_iou_distance], on the cascade's unmatched detections and on
    the candidate list made of the positions of the tracks that are not
    confirmed followed by the cascade's unmatched tracks with
    [time_since_update = 1].  The cascade's unmatched tracks are
    confirmed; one with [time_since_update ≠ 1] is no candidate and is
    in the unmatched tracks that [_match] returns. *)
Theorem _match_iou_candidates (self : Tracker)
    (detections : list Detection) :
  ∃ ma uta uda mb utb udb ut,
    let trs := tracks self in
    let candidates :=
      unconfirmed_positions trs ++
      filter (λ k, time_since_update (trs !!! k) = 1) uta in
    matching_cascade (gated_metric self)
      (matching_threshold (metric self)) (max_age self) trs detections
      (Some (PyList (confirmed_positions trs))) None =
      Ok (ma, uta, PyList uda) ∧
    min_cost_matching iou_cost (max_iou_distance self) trs detections
      (Some (PyList candidates)) (Some (PyList uda)) =
      Ok (mb, PyList utb, PyList udb) ∧
    _match self detections = Ok (ma ++ mb, ut, PyList udb) ∧
    (∀ k, k ∈ candidates ↔
          (k < length trs ∧ ¬ is_confirmed (trs !!! k)) ∨
          (k ∈ uta ∧ time_since_update (trs !!! k) = 1)) ∧
    (∀ k, k ∈ uta → k < length trs ∧ is_confirmed (trs !!! k)) ∧
    (∀ k, k ∈ uta → time_since_update (trs !!! k) ≠ 1 →
          (k ∉ candidates) ∧ (k ∈ ut)).
Proof.
  destruct (_match_spec self detections)
    as (ma & uta & uda & mb & utb & udb & Hcas & Hiou & Hm & _ & _ & _ &
        _ & _ & Huta & _).
  cbv zeta in *. eexists ma, uta, uda, mb, utb, udb, _.
  split; [exact Hcas|]. split; [exact Hiou|]. split; [exact Hm|].
  assert (Hcand : ∀ k,
    k ∈ unconfirmed_positions (tracks self) ++
        filter (λ k, time_since_update (tracks self !!! k) = 1) uta ↔
    (k < length (tracks self) ∧ ¬ is_confirmed (tracks self !!! k)) ∨
    (k ∈ uta ∧ time_since_update (tracks self !!! k) = 1)).
  { intros k.
    rewrite elem_of_app, unconfirmed_positions_elem, list_elem_of_filter.
    tauto. }
  assert (Hconf : ∀ k, k ∈ uta →
    k < length (tracks self) ∧ is_confirmed (tracks self !!! k)).
  { intros k [Hk _]%Huta. by apply confirmed_positions_elem. }
  split; [exact Hcand|]. split; [exact Hconf|].
  intros k Hk Hne. split.
  - rewrite Hcand. intros [[_ Hn]|[_ ?]]; [|done].
    apply Hn. by apply Hconf.
  - rewrite list_of_set_elem, elem_of_list_to_set, elem_of_app. left.
    by apply list_elem_of_filter.
Qed.

(** C10. [_match] returns, and in its result no track index is the track
    of two matches, no detection index is the detection of two matches,
    and no detection of a match is among the unmatched detections. *)
Theorem _match_one_to_one (self : Tracker) (detections : list Detection) :
  ∃ matches ut ud,
    _match self detections = Ok (matches, ut, PyList ud) ∧
    NoDup matches.*1 ∧ NoDup matches.*2 ∧
    ∀ d, d ∈ matches.*2 → d ∉ ud.
Proof.
  destruct (_match_spec self detections)
    as (ma & uta & uda & mb & utb & udb & _ & _ & Hm & Hpa & Hpb & Hpt &
        Hta & Hnda & Huta & Hnduta).
  cbv zeta in *. eexists _, _, _. split; [exact Hm|].
  assert (NoDup ((ma ++ mb).*2 ++ udb)) as Hnd.
  { rewrite fmap_app, <- app_assoc, Hpb, Hpa. apply NoDup_seq. }
  apply NoDup_app in Hnd as (Hnd2 & Hdisj & _).
  split_and!; [|done|done].
  rewrite fmap_app. apply NoDup_app.
  assert (NoDup (mb.*1 ++ utb)) as Hndb.
  { rewrite Hpt. apply NoDup_app. split_and!.
    - apply NoDup_filter, NoDup_seq.
    - intros k [_ Hn]%unconfirmed_positions_elem
               [_ [Hk _]%Huta]%list_elem_of_filter.
      apply Hn. by apply confirmed_positions_elem in Hk as [_ ?].
    - by apply NoDup_filter. }
  split_and!; [done| |by apply NoDup_app in Hndb as [? _]].
  intros t Ht Ht'.
  assert (t ∈ mb.*1 ++ utb) as Hin by (apply elem_of_app; by left).
  rewrite Hpt in Hin. apply elem_of_app in Hin as [Hin|Hin].
  - apply unconfirmed_positions_elem in Hin as [_ Hn]. apply Hn.
    by apply Hta, confirmed_positions_elem in Ht as [_ ?].
  - apply list_elem_of_filter in Hin as [_ [_ Hn]%Huta]. done.
Qed.

Lemma _match_in_range (self : Tracker) (detections : list Detection) :
  ∃ matches ut ud,
    _match self detections = Ok (matches, ut, PyList ud) ∧
    Forall (λ td, td.1 < length (tracks self) ∧
                  td.2 < length detections) matches ∧
    Forall (λ k, k < length (tracks self)) ut ∧
    Forall (λ k, k < length detections) ud.
Proof.
  destruct (_match_spec self detections)
    as (ma & uta & uda & mb & utb & udb & _ & _ & Hm & Hpa & Hpb & Hpt &
        Hta & _ & Huta & _).
  cbv zeta in *. eexists _, _, _. split; [exact Hm|].
  assert (Hdet : ∀ d, d ∈ ma.*2 ++ uda → d < length detections).
  { intros d Hd. rewrite Hpa in Hd. apply elem_of_seq in Hd. lia. }
  assert (Huda : ∀ d, d ∈ mb.*2 ++ udb → d < length detections).
  { intros d Hd. rewrite Hpb in Hd. apply Hdet, elem_of_app. by right. }
  assert (Hconf : ∀ k, k ∈ uta → k < length (tracks self)).
  { intros k [Hk _]%Huta. by apply confirmed_positions_elem in Hk as [? _]. }
  assert (Hcand : ∀ k, k ∈ mb.*1 ++ utb → k < length (tracks self)).
  { intros k Hk. rewrite Hpt in Hk. apply elem_of_app in Hk as [Hk|Hk].
    - by apply unconfirmed_positions_elem in Hk as [? _].
    - apply list_elem_of_filter in Hk as [_ Hk]. by apply Hconf. }
  split_and!; apply Forall_forall.
  - intros [t d] [Hin|Hin]%elem_of_app; simpl; split.
    + apply (list_elem_of_fmap_2 fst) in Hin.
      by apply Hta, confirmed_positions_elem in Hin as [? _].
    + apply Hdet, elem_of_app. left.
      by apply (list_elem_of_fmap_2 snd _ (t, d)).
    + apply Hcand, elem_of_app. left.
      by apply (list_elem_of_fmap_2 fst _ (t, d)).
    + apply Huda, elem_of_app. left.
      by apply (list_elem_of_fmap_2 snd _ (t, d)).
  - intros k. rewrite list_of_set_elem, elem_of_list_to_set, elem_of_app.
    intros [Hk|Hk].
    + apply list_elem_of_filter in Hk as [_ Hk]. by apply Hconf.
    + apply Hcand, elem_of_app. by right.
  - intros d Hd. apply Huda, elem_of_app. by right.
Qed.

(** The loop that gathers the features, in closed form. *)
Lemma foldl_collect (l : list Track) (fs : list Feature) (ts : list nat)
    (seen : list Track) :
  foldl collect (fs, ts, seen) l =
  (fs ++ concat (features <$> filter (λ t, is_confirmed t) l),
   ts ++ concat ((λ t, (λ _, track_id t) <$> features t)
                   <$> filter (λ t, is_confirmed t) l),
   seen ++ ((λ t, if is_confirmed t then clear_features t else t) <$> l)).
Proof.
  revert fs ts seen. induction l as [|t l IH]; intros fs ts seen.
  { simpl. by rewrite !app_nil_r. }
  cbn [foldl]. rewrite filter_cons, fmap_cons.
  assert (collect (fs, ts, seen) t =
          if is_confirmed t
          then (fs ++ features t,
                ts ++ ((λ _, track_id t) <$> features t),
                seen ++ [clear_features t])
          else (fs, ts, seen ++ [t])) as ->
    by (unfold collect; by destruct (is_confirmed t)).
  destruct (is_confirmed t) eqn:E.
  - rewrite IH. rewrite (decide_True (P:=Is_true true)) by exact I.
    rewrite !fmap_cons. simpl. by rewrite <- !app_assoc.
  - rewrite IH. rewrite (decide_False (P:=Is_true false)) by (intros []).
    by rewrite <- !app_assoc.
Qed.

Lemma with_track_spec (self : Tracker) (i : nat) (f : Track → Track) :
  i < length (tracks self) →
  ∃ self', with_track self i f = Ok self' ∧
           metric self' = metric self ∧
           length (tracks self') = length (tracks self).
Proof.
  intros Hi. unfold with_track. rewrite (index_lt _ i Hi), bind_Ok.
  eexists. split; [reflexivity|]. simpl. by rewrite length_insert.
Qed.

(** The three loops of the first half run through on indices within the
    track list and the detections, and leave the metric alone. *)
Lemma update_track_set_spec (self : Tracker) (detections : list Detection)
    (matches : list (nat * nat)) (ut : list nat) (ud : IndexSeq) :
  Forall (λ td, td.1 < length (tracks self) ∧ td.2 < length detections)
         matches →
  Forall (λ k, k < length (tracks self)) ut →
  Forall (λ k, k < length detections) (items ud) →
  ∃ self', update_track_set self detections matches ut ud = Ok self' ∧
           metric self' = metric self.
Proof.
  intros Hm Hut Hud. unfold update_track_set.
  assert (∃ s1, foldM (λ self '(track_idx, detection_idx),
                         detection ← index detections detection_idx;
                         with_track self track_idx
                                    (λ t, Track_update t detection))
                      self matches = Ok s1 ∧
                metric s1 = metric self ∧
                length (tracks s1) = length (tracks self))
    as (s1 & -> & Hm1 & Hl1).
  { clear Hut Hud. revert self Hm.
    induction matches as [|[t d] matches IH]; intros self Hm.
    { by exists self. }
    apply Forall_cons in Hm as [[Ht Hd] Hm]. simpl in Ht, Hd.
    cbn [foldM]. rewrite (index_lt _ d Hd), bind_Ok.
    destruct (with_track_spec self t
                (λ t0, Track_update t0 (detections !!! d)) Ht)
      as (s & -> & Hms & Hls).
    rewrite bind_Ok. destruct (IH s) as (s1 & -> & Hm1 & Hl1).
    { by rewrite Hls. }
    exists s1. split; [done|]. split; congruence. }
  rewrite bind_Ok.
  assert (∃ s2, foldM (λ self track_idx,
                         with_track self track_idx Track_mark_missed)
                      s1 ut = Ok s2 ∧ metric s2 = metric s1)
    as (s2 & -> & Hm2).
  { rewrite <- Hl1 in Hut. clear Hl1 Hm1 Hm Hud. revert s1 Hut.
    induction ut as [|k ut IH]; intros s1 Hut.
    { by exists s1. }
    apply Forall_cons in Hut as [Hk Hut]. cbn [foldM].
    destruct (with_track_spec s1 k Track_mark_missed Hk)
      as (s & -> & Hms & Hls).
    rewrite bind_Ok. destruct (IH s) as (s2 & -> & Hm2).
    { by rewrite Hls. }
    exists s2. split; [done|]. congruence. }
  rewrite bind_Ok.
  assert (∃ s3, foldM (λ self detection_idx,
                         detection ← index detections detection_idx;
                         Ok (_initiate_track self detection))
                      s2 (items ud) = Ok s3 ∧ metric s3 = metric s2)
    as (s3 & -> & Hm3).
  { clear Hm2 Hut Hm. revert s2.
    induction Hud as [|d ud' Hd _ IH]; intros s2.
    { by exists s2. }
    cbn [foldM]. rewrite (index_lt _ d Hd), !bind_Ok.
    destruct (IH (_initiate_track s2 (detections !!! d)))
      as (s3 & -> & Hm3).
    exists s3. split; [done|]. rewrite Hm3. unfold _initiate_track.
    by destruct (initiate _). }
  exists s3. split; [done|]. congruence.
Qed.

(** C8. [update] returns.  With [mid] the tracker as the first half of
    [update] leaves it and [live] its tracks that are not deleted, the
    metric has received exactly one more [partial_fit] call: its features
    are the buffers of the confirmed tracks of [live] one after the other,
    its targets repeat each such track's id once per feature of its
    buffer, and its active targets are the ids of the confirmed tracks of
    [live].  The tracks afterwards are those of [live], the confirmed
    ones with an emptied buffer and the others as they were. *)
Theorem update_refreshes_metric (self : Tracker)
    (detections : list Detection) :
  ∃ matches ut ud mid,
    _match self detections = Ok (matches, ut, ud) ∧
    update_track_set self detections matches ut ud = Ok mid ∧
    let live := filter (λ t, negb (is_deleted t)) (tracks mid) in
    let confirmed := filter (λ t, is_confirmed t) live in
    ∃ self',
      update self detections = Ok self' ∧
      fitted (metric self') =
        fitted (metric self) ++
        [mkFitCall
           (concat (features <$> confirmed))
           (concat ((λ t, (λ _, track_id t) <$> features t) <$> confirmed))
           (track_id <$> confirmed)] ∧
      tracks self' =
        (λ t, if is_confirmed t then clear_features t else t) <$> live ∧
      (∀ t, t ∈ tracks self' → is_confirmed t → features t = []) ∧
      (∀ i t, live !! i = Some t → ¬ is_confirmed t →
              tracks self' !! i = Some t).
Proof.
  destruct (_match_in_range self detections)
    as (matches & ut & ud & Hm & Hr1 & Hr2 & Hr3).
  destruct (update_track_set_spec self detections matches ut (PyList ud)
              Hr1 Hr2 Hr3) as (mid & Hmid & Hmetric).
  exists matches, ut, (PyList ud), mid.
  split; [done|]. split; [done|]. cbv zeta.
  eexists. split.
  { unfold update. rewrite Hm, bind_Ok, Hmid, bind_Ok. reflexivity. }
  unfold update_metric. rewrite foldl_collect. simpl.
  rewrite Hmetric. split; [done|]. split; [done|]. split.
  - intros t (t0 & -> & _)%list_elem_of_fmap.
    destruct (is_confirmed t0) eqn:E.
    + intros _. reflexivity.
    + rewrite E. intros [].
  - intros i t Hi Hn. rewrite list_lookup_fmap, Hi. simpl.
    destruct (is_confirmed t); [|done]. by destruct Hn.
Qed.

End tracker_correct.

(** ** The sample collaborators meet the contracts *)

Lemma diagonal_assignment_valid (m : Matrix) (R C : nat) :
  shape m R C → valid_assignment R C (diagonal_assignment m).
Proof.
  intros Hs. unfold diagonal_assignment.
  set (n := min (length m) (length (m !!! 0))).
  assert (n ≤ R ∧ n ≤ C) as [HR HC].
  { subst n. destruct Hs as [HR HC]. destruct m as [|row m].
    - rewrite length_nil in HR |- *. lia.
    - apply Forall_cons in HC as [Hrow _].
      change ((row :: m) !!! 0) with row. rewrite length_cons in HR |- *.
      lia. }
  assert (∀ f : nat * nat → nat, (∀ i, f (i, i) = i) →
            f <$> ((λ i, (i, i)) <$> seq 0 n) = seq 0 n) as Hproj.
  { intros f Hf. rewrite <- list_fmap_compose.
    rewrite <- (list_fmap_id (seq 0 n)) at 2.
    apply list_fmap_ext. intros i k _. simpl. apply Hf. }
  split_and!.
  - rewrite (Hproj fst) by done. apply NoDup_seq.
  - rewrite (Hproj snd) by done. apply NoDup_seq.
  - apply Forall_fmap, Forall_forall. intros i Hi.
    apply elem_of_seq in Hi. simpl. lia.
Qed.

Lemma elements_order_elem (s : gset nat) (k : nat) :
  k ∈ list_of_set (SetOrder:=elements_order) s ↔ k ∈ s.
Proof. apply elem_of_elements. Qed.

Lemma elements_order_NoDup (s : gset nat) :
  NoDup (list_of_set (SetOrder:=elements_order) s).
Proof. apply NoDup_elements. Qed.

Lemma flat_filter_length (m : list Q) (c : Matrix)
    (measurements : list (list Q)) (only_position : bool) :
  length (gating_distance (KalmanFilter:=flat_filter) m c measurements
                          only_position) = length measurements.
Proof. apply length_fmap. Qed.

Lemma ramp_filter_length (m : list Q) (c : Matrix)
    (measurements : list (list Q)) (only_position : bool) :
  length (gating_distance (KalmanFilter:=ramp_filter) m c measurements
                          only_position) = length measurements.
Proof. simpl. by rewrite length_fmap, length_seq. Qed.

Lemma const_shape {A B} (c : Q) (rows : list A) (cols : list B) :
  shape ((λ _, (λ _, c) <$> cols) <$> rows) (length rows) (length cols).
Proof.
  split; [by rewrite length_fmap|].
  apply Forall_fmap, Forall_forall. intros x _. simpl. by rewrite length_fmap.
Qed.

Lemma const_metric_well_shaped (c : Q) (tracks : list Track)
    (detections : list Detection) :
  well_shaped (const_metric c) tracks detections.
Proof. intros ti di _ _. eexists. split; [reflexivity|]. apply const_shape. Qed.

Lemma sample_metric_distance_shape (m : Metric) (fs : list Feature)
    (ts : list nat) :
  shape (metric_distance (Collaborators:=sample_collaborators) m fs ts)
        (length ts) (length fs).
Proof. apply const_shape. Qed.

Lemma sample_iou_cost_shaped (tracks : list Track)
    (detections : list Detection) :
  well_shaped (iou_cost (Collaborators:=sample_collaborators)) tracks
              detections.
Proof. apply const_metric_well_shaped. Qed.

(** A 2×1 cost matrix: both tracks are within [1/2] of the one
    detection. *)
Lemma diagonal_optimal_two_by_one :
  optimal_assignment (clamp (1 # 2) [[1 # 10]; [2 # 10]]) 2 1
    (diagonal_assignment (clamp (1 # 2) [[1 # 10]; [2 # 10]])).
Proof.
  split; [apply diagonal_assignment_valid; by repeat constructor|].
  split; [reflexivity|].
  intros a' (_ & _ & Ha) Hlen.
  destruct a' as [|[r c] [|? ?]]; try discriminate Hlen.
  apply Forall_cons in Ha as [[Hr Hc] _]. simpl in Hr, Hc.
  assert (c = 0) as -> by lia.
  assert (r = 0 ∨ r = 1) as [-> | ->] by lia; vm_compute; discriminate.
Qed.

(** ** Runs on concrete inputs *)

#[local] Existing Instances diagonal_assignment elements_order flat_filter
  sample_collaborators.

(** C2 fails as stated.  Two tracks, one detection, costs 0.1 and 0.2,
    threshold 0.5: the cheapest assignment gives the detection to track 0,
    and track 1 is returned unmatched although its only partner, detection
    0, costs 0.2. *)
Lemma min_cost_matching_unmatched_has_feasible_partner :
  let cm := [[1 # 10]; [2 # 10]]%Q in
  let tracks := [sample_track 1 1 Confirmed; sample_track 2 1 Confirmed] in
  optimal_assignment (clamp (1 # 2) cm) 2 1
                     (linear_assignment (clamp (1 # 2) cm)) ∧
  ∃ matches ut ud,
    min_cost_matching (table_metric cm) (1 # 2) tracks [sample_detection]
                      (Some (PyList [0; 1])) (Some (PyList [0])) =
    Ok (matches, PyList ut, PyList ud) ∧
    ¬ (∀ r c t d, [0; 1] !! r = Some t → [0] !! c = Some d → t ∈ ut →
                  (1 # 2 < entry cm r c)%Q).
Proof.
  split; [exact diagonal_optimal_two_by_one|].
  exists [(0, 0)], [1], []. split; [vm_compute; reflexivity|].
  intros Hall.
  specialize (Hall 1 0 1 0 eq_refl eq_refl (list_elem_of_here 1 [])).
  vm_compute in Hall. discriminate Hall.
Qed.

(** The failing input of C1: threshold [1e12], one track and one
    detection at cost [2e12].  In [float64], [1e12 + 1e-5] is [1e12]. *)
Lemma min_cost_matching_absorbed_threshold_witness :
  float_add 1000000000000 EPS = 1000000000000%Q ∧
  min_cost_matching (table_metric [[2000000000000%Q]]) 1000000000000
                    [sample_track 1 1 Confirmed] [sample_detection]
                    (Some (PyList [0])) (Some (PyList [0])) =
  Ok ([(0, 0)], PyList [], PyList []).
Proof.
  split; [vm_compute; reflexivity|].
  apply min_cost_matching_absorbed_threshold.
  - intros Hex. vm_compute in Hex. discriminate Hex.
  - reflexivity.
  - reflexivity.
Defined.


Lemma min_cost_matching_partition_witness :
  let cm := [[1 # 10; 9 # 10]; [9 # 10; 9 # 10]]%Q in
  let tracks := [sample_track 1 1 Confirmed; sample_track 2 1 Confirmed] in
  let detections := [sample_detection; sample_detection] in
  ∃ matches ut ud,
    min_cost_matching (table_metric cm) (1 # 2) tracks detections
                      (Some (PyList [0; 1])) (Some (PyList [0; 1])) =
    Ok (matches, PyList ut, PyList ud) ∧
    matches.*1 ++ ut ≡ₚ [0; 1] ∧ matches.*2 ++ ud ≡ₚ [0; 1].
Proof.
  intros cm tracks detections.
  destruct (min_cost_matching_partition
              (table_metric cm) (1 # 2) tracks detections [0; 1] [0; 1] cm)
    as (matches & ut & ud & Hrun & Pt & Pd & _).
  - done.
  - done.
  - reflexivity.
  - by repeat constructor.
  - apply diagonal_assignment_valid. by repeat constructor.
  - exists matches, ut, ud. exact (conj Hrun (conj Pt Pd)).
Defined.

(** A 2×2 cost matrix in which only the pair (0, 0) is within [1/2]. *)
Lemma diagonal_optimal_two_by_two :
  optimal_assignment
    (clamp (1 # 2) [[1 # 10; 9 # 10]; [9 # 10; 9 # 10]]) 2 2
    (diagonal_assignment
       (clamp (1 # 2) [[1 # 10; 9 # 10]; [9 # 10; 9 # 10]])).
Proof.
  split; [apply diagonal_assignment_valid; by repeat constructor|].
  split; [reflexivity|].
  intros a' (Hnr & Hnc & Ha) Hlen.
  destruct a' as [|[r1 c1] [|[r2 c2] [|? ?]]]; try discriminate Hlen.
  apply Forall_cons in Ha as [[Hr1 Hc1] Ha].
  apply Forall_cons in Ha as [[Hr2 Hc2] _]. simpl in *.
  assert (r1 ≠ r2).
  { intros ->. apply NoDup_cons in Hnr as [Hn _]. apply Hn. by left. }
  assert (c1 ≠ c2).
  { intros ->. apply NoDup_cons in Hnc as [Hn _]. apply Hn. by left. }
  assert (r1 = 0 ∨ r1 = 1) as [-> | ->] by lia;
    assert (r2 = 0 ∨ r2 = 1) as [-> | ->] by lia; try congruence;
    assert (c1 = 0 ∨ c1 = 1) as [-> | ->] by lia;
    assert (c2 = 0 ∨ c2 = 1) as [-> | ->] by lia; try congruence;
    vm_compute; discriminate.
Qed.

Lemma min_cost_matching_unmatched_pairs_infeasible_witness :
  let cm := [[1 # 10; 9 # 10]; [9 # 10; 9 # 10]]%Q in
  let tracks := [sample_track 1 1 Confirmed; sample_track 2 1 Confirmed] in
  let detections := [sample_detection; sample_detection] in
  ∃ matches ut ud,
    min_cost_matching (table_metric cm) (1 # 2) tracks detections
                      (Some (PyList [0; 1])) (Some (PyList [0; 1])) =
    Ok (matches, PyList ut, PyList ud) ∧
    ∀ r c t d, [0; 1] !! r = Some t → [0; 1] !! c = Some d →
               t ∈ ut → d ∈ ud → (1 # 2 < entry cm r c)%Q.
Proof.
  intros cm tracks detections.
  apply (min_cost_matching_unmatched_pairs_infeasible
           (table_metric cm) (1 # 2) tracks detections [0; 1] [0; 1] cm).
  - done.
  - done.
  - apply (bool_decide_unpack _). exact I.
  - apply (bool_decide_unpack _). exact I.
  - reflexivity.
  - by repeat constructor.
  - exact diagonal_optimal_two_by_two.
Defined.

Lemma matching_cascade_detections_once_witness :
  ∃ matches ut ud,
    matching_cascade (const_metric (1 # 10)) (1 # 2) 3 sample_tracks
                     sample_detections None None =
    Ok (matches, ut, PyList ud) ∧
    matches.*2 ++ ud ≡ₚ [0; 1; 2; 3] ∧
    NoDup (matches.*2 ++ ud).
Proof.
  destruct (matching_cascade_detections_once diagonal_assignment_valid
              (const_metric (1 # 10)) (1 # 2) sample_tracks
              sample_detections [0; 1; 2]
              (const_metric_well_shaped _ _ _)
              ltac:(by repeat constructor)
              3 None None [0; 1; 2; 3] eq_refl eq_refl
              ltac:(by repeat constructor)
              ltac:(apply (bool_decide_unpack _); exact I))
    as (matches & ut & ud & Hrun & Hp & Hnd & _).
  exists matches, ut, ud. exact (conj Hrun (conj Hp Hnd)).
Defined.

Lemma matching_cascade_levels_witness :
  ∃ matches ut ud,
    matching_cascade (const_metric (1 # 10)) (1 # 2) 3 sample_tracks
                     sample_detections None None =
    Ok (matches, ut, PyList ud) ∧
    cascade_state_at (const_metric (1 # 10)) (1 # 2) sample_tracks
                     sample_detections (PyList [0; 1; 2])
                     (PyList [0; 1; 2; 3]) 3 = Ok (matches, PyList ud) ∧
    cascade_state_at (const_metric (1 # 10)) (1 # 2) sample_tracks
                     sample_detections (PyList [0; 1; 2])
                     (PyList [0; 1; 2; 3]) 0 =
      Ok ([], PyList [0; 1; 2; 3]) ∧
    (∀ k, k ∈ ut ↔ k ∈ [0; 1; 2] ∧ k ∉ matches.*1) ∧
    NoDup ut.
Proof.
  destruct (matching_cascade_levels diagonal_assignment_valid
              elements_order_elem elements_order_NoDup
              (const_metric (1 # 10)) (1 # 2) sample_tracks
              sample_detections [0; 1; 2]
              (const_metric_well_shaped _ _ _)
              ltac:(by repeat constructor)
              3 None None [0; 1; 2; 3] eq_refl eq_refl
              ltac:(by repeat constructor))
    as (matches & ut & ud & Hrun & Hst & Hbase & _ & Hut & Hnd).
  exists matches, ut, ud.
  exact (conj Hrun (conj Hst (conj Hbase (conj Hut Hnd)))).
Defined.

Lemma get_cost_matrix_gates_witness :
  let cm := [[1 # 10; 9 # 10]; [9 # 10; 9 # 10]]%Q in
  ∃ cm',
    @get_cost_matrix ramp_filter cm sample_tracks sample_detections
                     (PyList [0; 1]) (PyList [0; 1]) None false = Ok cm' ∧
    shape cm' 2 2 ∧
    ∀ r, r < 2 → entry cm' r 0 = entry cm r 0 ∧ entry cm' r 1 = 100000%Q.
Proof.
  intros cm.
  destruct (@get_cost_matrix_gates ramp_filter ramp_filter_length cm
              sample_tracks sample_detections (PyList [0; 1])
              (PyList [0; 1]) false)
    as (cm' & Hrun & Hs & He).
  - by repeat constructor.
  - by repeat constructor.
  - by repeat constructor.
  - exists cm'. split; [exact Hrun|]. split; [exact Hs|].
    intros r Hr. split.
    + apply (He r 0 Hr); [simpl; lia|].
      assert (r = 0 ∨ r = 1) as [-> | ->] by lia; vm_compute; discriminate.
    + apply (He r 1 Hr); [simpl; lia|].
      assert (r = 0 ∨ r = 1) as [-> | ->] by lia; reflexivity.
Defined.

Lemma _match_iou_candidates_witness :
  ∃ ma uta uda mb utb udb ut,
    matching_cascade (gated_metric sample_tracker) (1 # 5) 30 sample_tracks
                     sample_detections (Some (PyList [0; 1])) None =
      Ok (ma, uta, PyList uda) ∧
    min_cost_matching iou_cost (7 # 10) sample_tracks sample_detections
      (Some (PyList ([2] ++
         filter (λ k, time_since_update (sample_tracks !!! k) = 1) uta)))
      (Some (PyList uda)) = Ok (mb, PyList utb, PyList udb) ∧
    _match sample_tracker sample_detections = Ok (ma ++ mb, ut, PyList udb).
Proof.
  destruct (_match_iou_candidates diagonal_assignment_valid
              elements_order_elem elements_order_NoDup flat_filter_length
              sample_metric_distance_shape sample_iou_cost_shaped
              sample_tracker sample_detections)
    as (ma & uta & uda & mb & utb & udb & ut & Hcas & Hiou & Hm & _).
  exists ma, uta, uda, mb, utb, udb, ut.
  exact (conj Hcas (conj Hiou Hm)).
Defined.

Lemma _match_one_to_one_witness :
  ∃ matches ut ud,
    _match sample_tracker sample_detections = Ok (matches, ut, PyList ud) ∧
    NoDup matches.*1 ∧ NoDup matches.*2 ∧
    ∀ d, d ∈ matches.*2 → d ∉ ud.
Proof.
  exact (_match_one_to_one diagonal_assignment_valid elements_order_elem
           elements_order_NoDup flat_filter_length
           sample_metric_distance_shape sample_iou_cost_shaped
           sample_tracker sample_detections).
Defined.

Lemma update_refreshes_metric_witness :
  ∃ self',
    update sample_tracker sample_detections = Ok self' ∧
    fitted (metric self') =
      [mkFitCall [[1%Q]; [1%Q]] [1; 2] [1; 2]] ∧
    (∀ t, t ∈ tracks self' → is_confirmed t → features t = []).
Proof.
  destruct (update_refreshes_metric diagonal_assignment_valid
              elements_order_elem elements_order_NoDup flat_filter_length
              sample_metric_distance_shape sample_iou_cost_shaped
              sample_tracker sample_detections)
    as (matches & ut & ud & mid & Hm & Hmid & self' & Hup & Hfit & _ & Hc & _).
  exists self'. split; [exact Hup|]. split; [|exact Hc].
  assert (Hrun : update sample_tracker sample_detections =
                 Ok (mkTracker
                       (mkMetric (1 # 5)
                          [mkFitCall [[1%Q]; [1%Q]] [1; 2] [1; 2]])
                       30 (7 # 10) 3
                       [clear_features (sample_track 1 1 Confirmed);
                        clear_features (sample_track 2 2 Confirmed);
                        sample_track 3 1 Tentative;
                        mkTrack 4 Tentative [] [] 0 0 0 [[]] 0] 5))
    by (vm_compute; reflexivity).
  rewrite Hrun in Hup. by inversion Hup.
Defined.


(** ** A frame of the tracker, track by track *)

Section tracker_frame.
Context `{!AssignmentSolver, !SetOrder, !KalmanFilter, !Collaborators}.

Hypothesis solver_valid :
  ∀ m R C, shape m R C → valid_assignment R C (linear_assignment m).
Hypothesis list_of_set_elem : ∀ s k, k ∈ list_of_set s ↔ k ∈ s.
Hypothesis list_of_set_NoDup : ∀ s, NoDup (list_of_set s).
Hypothesis gating_distance_length :
  ∀ m c measurements only_position,
    length (gating_distance m c measurements only_position) =
    length measurements.
Hypothesis metric_distance_shape :
  ∀ m fs ts, shape (metric_distance m fs ts) (length ts) (length fs).
Hypothesis iou_cost_shaped :
  ∀ tracks detections, well_shaped iou_cost tracks detections.

Lemma list_of_set_perm (l : list nat) :
  NoDup l → list_of_set (list_to_set l) ≡ₚ l.
Proof.
  intros Hnd. apply NoDup_Permutation; [apply list_of_set_NoDup|done|].
  intros k. by rewrite list_of_set_elem, elem_of_list_to_set.
Qed.

Lemma positions_perm (trs : list Track) :
  confirmed_positions trs ++ unconfirmed_positions trs ≡ₚ
  seq 0 (length trs).
Proof.
  assert (unconfirmed_positions trs =
          filter (λ k, ¬ is_confirmed (trs !!! k)) (seq 0 (length trs)))
    as -> by (apply list_filter_iff; intros k; by rewrite negb_True).
  apply (filter_app_complement (λ k, Is_true (is_confirmed (trs !!! k)))).
Qed.

(** What [_match] returns covers the tracks and the detections. *)
Lemma _match_partition_spec (self : Tracker) (detections : list Detection) :
  ∃ matches ut ud,
    _match self detections = Ok (matches, ut, PyList ud) ∧
    matches.*1 ++ ut ≡ₚ seq 0 (length (tracks self)) ∧
    matches.*2 ++ ud ≡ₚ seq 0 (length detections).
Proof.
  destruct (_match_spec solver_valid list_of_set_elem list_of_set_NoDup
              gating_distance_length metric_distance_shape iou_cost_shaped
              self detections)
    as (ma & uta & uda & mb & utb & udb & _ & _ & Hm & Hpa & Hpb & Hpt &
        Hta & Hnda & Huta & Hnduta).
  cbv zeta in *. eexists _, _, _. split; [exact Hm|].
  set (trs := tracks self) in *.
  set (recent := filter (λ k, time_since_update (trs !!! k) = 1) uta) in *.
  set (stale := filter (λ k, time_since_update (trs !!! k) ≠ 1) uta) in *.
  assert (Hconf : ∀ k, k ∈ uta → is_confirmed (trs !!! k)).
  { intros k [Hk _]%Huta. by apply confirmed_positions_elem in Hk as [_ ?]. }
  assert (NoDup (unconfirmed_positions trs ++ recent)) as Hndc.
  { apply NoDup_app. split_and!.
    - apply NoDup_filter, NoDup_seq.
    - intros k [_ Hn]%unconfirmed_positions_elem
               [_ Hk]%list_elem_of_filter.
      by apply Hn, Hconf.
    - by apply NoDup_filter. }
  assert (NoDup (mb.*1 ++ utb)) as Hndb by (by rewrite Hpt).
  assert (NoDup (stale ++ utb)) as Hnds.
  { apply NoDup_app. split_and!.
    - by apply NoDup_filter.
    - intros k [Hne Hk]%list_elem_of_filter Hk'.
      assert (k ∈ mb.*1 ++ utb) as Hin by (apply elem_of_app; by right).
      rewrite Hpt in Hin. apply elem_of_app in Hin as [Hin|Hin].
      + apply unconfirmed_positions_elem in Hin as [_ Hn].
        by apply Hn, Hconf.
      + by apply list_elem_of_filter in Hin as [? _].
    - by apply NoDup_app in Hndb as (_ & _ & ?). }
  assert (ma.*1 ++ uta ≡ₚ confirmed_positions trs) as Hpc.
  { apply NoDup_Permutation.
    - apply NoDup_app. split_and!; [done| |done].
      intros k Hk [_ Hn]%Huta. done.
    - apply NoDup_filter, NoDup_seq.
    - intros k. rewrite elem_of_app, Huta. split.
      + intros [Hk|[Hk _]]; [by apply Hta|done].
      + intros Hk. destruct (decide (k ∈ ma.*1)); [by left|by right]. }
  assert (recent ++ stale ≡ₚ uta) as Hrs.
  { apply (filter_app_complement
             (λ k, time_since_update (trs !!! k) = 1)). }
  split.
  - rewrite (list_of_set_perm _ Hnds), fmap_app.
    trans (ma.*1 ++ stale ++ (mb.*1 ++ utb)); [solve_Permutation|].
    rewrite Hpt.
    trans ((ma.*1 ++ (recent ++ stale)) ++ unconfirmed_positions trs);
      [solve_Permutation|].
    by rewrite Hrs, Hpc, positions_perm.
  - by rewrite fmap_app, <- app_assoc, Hpb, Hpa.
Qed.

(** X1. [_match] returns, and every position of the track list is the
    track of exactly one match or occurs exactly once among the unmatched
    tracks; likewise every position of the detection list is the detection
    of exactly one match or occurs once among the unmatched detections. *)
Theorem _match_covers_tracks_and_detections (self : Tracker)
    (detections : list Detection) :
  ∃ matches ut ud,
    _match self detections = Ok (matches, ut, PyList ud) ∧
    matches.*1 ++ ut ≡ₚ seq 0 (length (tracks self)) ∧
    matches.*2 ++ ud ≡ₚ seq 0 (length detections) ∧
    NoDup (matches.*1 ++ ut) ∧ NoDup (matches.*2 ++ ud).
Proof.
  destruct (_match_partition_spec self detections)
    as (matches & ut & ud & Hm & Pt & Pd).
  exists matches, ut, ud. split_and!; try done.
  - rewrite Pt. apply NoDup_seq.
  - rewrite Pd. apply NoDup_seq.
Qed.

Lemma foldM_ext {A S} (f g : S → A → result S) (s : S) (l : list A) :
  (∀ s x, x ∈ l → f s x = g s x) → foldM f s l = foldM g s l.
Proof.
  revert s. induction l as [|x l IH]; intros s Hfg; [done|].
  simpl. rewrite (Hfg s x) by left.
  destruct (g s x) as [s'|e]; [|done]. rewrite !bind_Ok.
  apply IH. intros s0 y Hy. apply Hfg. by right.
Qed.

Lemma foldM_fmap {A B S} (f : S → B → result S) (h : A → B) (s : S)
    (l : list A) :
  foldM f s (h <$> l) = foldM (λ s x, f s (h x)) s l.
Proof.
  revert s. induction l as [|x l IH]; intros s; [done|].
  simpl. destruct (f s (h x)); [|done]. rewrite !bind_Ok. apply IH.
Qed.

Lemma length_apply_ops (ops : list (nat * (Track → Track)))
    (trs : list Track) :
  length (apply_ops ops trs) = length trs.
Proof.
  revert trs. induction ops as [|[i f] ops IH]; intros trs; [done|].
  unfold apply_ops in *. simpl. by rewrite IH, length_insert.
Qed.

Lemma apply_ops_other (ops : list (nat * (Track → Track)))
    (trs : list Track) (i : nat) :
  i ∉ ops.*1 → apply_ops ops trs !! i = trs !! i.
Proof.
  revert trs. induction ops as [|[j f] ops IH]; intros trs Hi; [done|].
  rewrite fmap_cons, not_elem_of_cons in Hi. destruct Hi as [Hne Hi].
  unfold apply_ops in *. simpl in *.
  rewrite IH by done. by apply list_lookup_insert_ne.
Qed.

Lemma apply_ops_at (ops : list (nat * (Track → Track)))
    (trs : list Track) (i : nat) (f : Track → Track) (t : Track) :
  NoDup ops.*1 → (i, f) ∈ ops → trs !! i = Some t →
  apply_ops ops trs !! i = Some (f t).
Proof.
  revert trs. induction ops as [|[j g] ops IH]; intros trs Hnd Hin Ht.
  { by apply elem_of_nil in Hin. }
  rewrite fmap_cons in Hnd. apply NoDup_cons in Hnd as [Hj Hnd].
  change (apply_ops ((j, g) :: ops) trs)
    with (apply_ops ops (<[j := g (trs !!! j)]> trs)).
  apply elem_of_cons in Hin as [Heq|Hin].
  - inversion Heq; subst j g. rewrite apply_ops_other by done.
    rewrite (list_lookup_total_correct _ _ _ Ht).
    apply list_lookup_insert_eq. by apply lookup_lt_Some in Ht.
  - apply IH; [done|done|].
    rewrite list_lookup_insert_ne; [done|].
    intros ->. apply Hj. by apply (list_elem_of_fmap_2 fst _ (i, f)).
Qed.

Lemma with_track_in_range (self : Tracker) (i : nat) (f : Track → Track) :
  i < length (tracks self) →
  with_track self i f =
  Ok (with_tracks self (<[i := f (tracks self !!! i)]> (tracks self))).
Proof.
  intros Hi. unfold with_track. by rewrite (index_lt _ i Hi), bind_Ok.
Qed.

(** The loop [for ...: self.tracks[i].method(...)] over in-range
    positions, in closed form. *)
Lemma foldM_with_track (ops : list (nat * (Track → Track)))
    (self : Tracker) :
  Forall (λ p, p.1 < length (tracks self)) ops →
  foldM (λ s p, with_track s p.1 p.2) self ops =
  Ok (with_tracks self (apply_ops ops (tracks self))).
Proof.
  revert self. induction ops as [|[i f] ops IH]; intros self Hops.
  { by destruct self. }
  apply Forall_cons in Hops as [Hi Hops]. simpl in Hi.
  cbn [foldM fst snd]. rewrite (with_track_in_range self i f Hi), bind_Ok.
  rewrite IH by (simpl; by rewrite length_insert). done.
Qed.

Lemma foldM_with_track_fmap {A} (h : A → nat * (Track → Track))
    (l : list A) (self : Tracker) :
  Forall (λ x, (h x).1 < length (tracks self)) l →
  foldM (λ s x, with_track s (h x).1 (h x).2) self l =
  Ok (with_tracks self (apply_ops (h <$> l) (tracks self))).
Proof.
  intros Hl. rewrite <- foldM_with_track by (by apply Forall_fmap).
  symmetry. apply (foldM_fmap (λ s p, with_track s p.1 p.2) h).
Qed.

Lemma _initiate_track_eq (self : Tracker) (d : Detection) :
  _initiate_track self d =
  {| metric := metric self; max_age := max_age self;
     max_iou_distance := max_iou_distance self; n_init := n_init self;
     tracks := tracks self ++ [spawned self (_next_id self) d];
     _next_id := _next_id self + 1 |}.
Proof.
  unfold _initiate_track, spawned. by destruct (initiate (to_xyah d)).
Qed.

(** The loop [for detection_idx in unmatched_detections:
    self._initiate_track(...)], in closed form. *)
Lemma foldl_initiate_track (self : Tracker) (dets : list Detection) :
  foldl _initiate_track self dets =
  {| metric := metric self; max_age := max_age self;
     max_iou_distance := max_iou_distance self; n_init := n_init self;
     tracks := tracks self ++
               imap (λ j d, spawned self (_next_id self + j) d) dets;
     _next_id := _next_id self + length dets |}.
Proof.
  revert self. induction dets as [|d dets IH]; intros self.
  { simpl. rewrite app_nil_r, Nat.add_0_r. by destruct self. }
  cbn [foldl]. rewrite _initiate_track_eq, IH. cbn [metric max_age
    max_iou_distance n_init tracks _next_id length].
  f_equal; [|lia]. rewrite <- app_assoc. f_equal.
  rewrite imap_cons. cbn [app]. f_equal.
  - by rewrite Nat.add_0_r.
  - apply imap_ext. intros j d' _. unfold spawned. simpl.
    by replace (_next_id self + 1 + j) with (_next_id self + S j) by lia.
Qed.

Lemma update_track_set_closed (self : Tracker)
    (detections : list Detection) (matches : list (nat * nat))
    (ut ud : list nat) :
  Forall (λ td, td.1 < length (tracks self) ∧ td.2 < length detections)
         matches →
  Forall (λ k, k < length (tracks self)) ut →
  Forall (λ k, k < length detections) ud →
  update_track_set self detections matches ut (PyList ud) =
  Ok (foldl _initiate_track
        (with_tracks self
           (apply_ops (miss_ops ut)
              (apply_ops (match_ops detections matches) (tracks self))))
        ((detections !!!.) <$> ud)).
Proof.
  intros Hm Hut Hud. unfold update_track_set.
  rewrite (foldM_ext _ (λ s td, with_track s
             (td.1, λ t, Track_update t (detections !!! td.2)).1
             (td.1, λ t, Track_update t (detections !!! td.2)).2)).
  2: { intros s [t d] Hin. rewrite Forall_forall in Hm.
       destruct (Hm _ Hin) as [_ Hd]. simpl in *.
       by rewrite (index_lt _ d Hd), bind_Ok. }
  rewrite (foldM_with_track_fmap
             (λ td, (td.1, λ t, Track_update t (detections !!! td.2)))).
  2: { eapply Forall_impl; [exact Hm|]. by intros ? [? _]. }
  fold (match_ops detections matches). rewrite bind_Ok.
  rewrite (foldM_ext _ (λ s k, with_track s (k, Track_mark_missed).1
                                 (k, Track_mark_missed).2))
    by (intros; reflexivity).
  rewrite (foldM_with_track_fmap (λ k, (k, Track_mark_missed))).
  2: { simpl. by rewrite length_apply_ops. }
  fold (miss_ops ut).
  rewrite bind_Ok. cbn [items].
  match goal with
  | |- foldM _ ?s _ = _ =>
      change s with (with_tracks self
                       (apply_ops (miss_ops ut)
                          (apply_ops (match_ops detections matches)
                             (tracks self))))
  end.
  generalize (with_tracks self
                (apply_ops (miss_ops ut)
                   (apply_ops (match_ops detections matches)
                      (tracks self)))).
  clear Hm Hut. induction Hud as [|d ud Hd _ IH]; intros s; [reflexivity|].
  cbn [foldM fmap list_fmap foldl].
  rewrite (index_lt _ d Hd), !bind_Ok. apply IH.
Qed.

Lemma match_ops_fst (detections : list Detection)
    (matches : list (nat * nat)) :
  (match_ops detections matches).*1 = matches.*1.
Proof. unfold match_ops. by rewrite <- list_fmap_compose. Qed.

Lemma miss_ops_fst (ut : list nat) : (miss_ops ut).*1 = ut.
Proof.
  unfold miss_ops. rewrite <- list_fmap_compose. apply list_fmap_id.
Qed.

(** The first half of [update], on the outcome of [_match]. *)
Lemma update_track_set_spec_frame (self : Tracker)
    (detections : list Detection) :
  ∃ matches ut ud,
    _match self detections = Ok (matches, ut, PyList ud) ∧
    matches.*1 ++ ut ≡ₚ seq 0 (length (tracks self)) ∧
    matches.*2 ++ ud ≡ₚ seq 0 (length detections) ∧
    let middle :=
      apply_ops (miss_ops ut)
        (apply_ops (match_ops detections matches) (tracks self)) in
    let mid :=
      {| metric := metric self; max_age := max_age self;
         max_iou_distance := max_iou_distance self; n_init := n_init self;
         tracks := middle ++
           imap (λ j d, spawned self (_next_id self + j) d)
                ((detections !!!.) <$> ud);
         _next_id := _next_id self + length ud |} in
    update_track_set self detections matches ut (PyList ud) = Ok mid ∧
    update self detections = Ok (update_metric mid) ∧
    length middle = length (tracks self) ∧
    ∀ i t, tracks self !! i = Some t →
      (∃ d, (i, d) ∈ matches ∧ (i ∉ ut) ∧
            middle !! i = Some (Track_update t (detections !!! d))) ∨
      (i ∈ ut ∧ (i ∉ matches.*1) ∧
       middle !! i = Some (Track_mark_missed t)).
Proof.
  destruct (_match_partition_spec self detections)
    as (matches & ut & ud & Hm & Pt & Pd).
  exists matches, ut, ud. split; [done|]. split; [done|]. split; [done|].
  assert (Hlt : ∀ k, k ∈ matches.*1 ++ ut → k < length (tracks self)).
  { intros k Hk. rewrite Pt in Hk. apply elem_of_seq in Hk. lia. }
  assert (Hld : ∀ k, k ∈ matches.*2 ++ ud → k < length detections).
  { intros k Hk. rewrite Pd in Hk. apply elem_of_seq in Hk. lia. }
  assert (NoDup (matches.*1 ++ ut)) as Hnd by (rewrite Pt; apply NoDup_seq).
  apply NoDup_app in Hnd as (Hnm & Hdisj & Hnu).
  cbv zeta.
  set (middle := apply_ops (miss_ops ut)
                   (apply_ops (match_ops detections matches) (tracks self))).
  assert (update_track_set self detections matches ut (PyList ud) =
          Ok {| metric := metric self; max_age := max_age self;
                max_iou_distance := max_iou_distance self;
                n_init := n_init self;
                tracks := middle ++
                  imap (λ j d, spawned self (_next_id self + j) d)
                       ((detections !!!.) <$> ud);
                _next_id := _next_id self + length ud |}) as Hmid.
  { rewrite update_track_set_closed.
    - rewrite foldl_initiate_track. by rewrite length_fmap.
    - apply Forall_forall. intros [t d] Hin. simpl. split.
      + apply Hlt, elem_of_app. left.
        by apply (list_elem_of_fmap_2 fst _ (t, d)).
      + apply Hld, elem_of_app. left.
        by apply (list_elem_of_fmap_2 snd _ (t, d)).
    - apply Forall_forall. intros k Hk. apply Hlt, elem_of_app. by right.
    - apply Forall_forall. intros k Hk. apply Hld, elem_of_app. by right. }
  split; [exact Hmid|]. split.
  { unfold update. by rewrite Hm, bind_Ok, Hmid, bind_Ok. }
  split; [subst middle; by rewrite !length_apply_ops|].
  intros i t Hi.
  assert (i ∈ matches.*1 ++ ut) as Hin.
  { rewrite Pt. apply elem_of_seq. apply lookup_lt_Some in Hi. lia. }
  apply elem_of_app in Hin as [Hin|Hin].
  - left. apply list_elem_of_fmap in Hin as ([i' d] & -> & Hin).
    simpl in *. exists d. split; [done|].
    assert (i' ∉ ut) as Hni.
    { apply Hdisj. by apply (list_elem_of_fmap_2 fst _ (i', d)). }
    split; [done|]. subst middle.
    rewrite apply_ops_other by (by rewrite miss_ops_fst).
    apply (apply_ops_at _ _ i'
             (λ t0, Track_update t0 (detections !!! d))).
    + by rewrite match_ops_fst.
    + unfold match_ops.
      by apply (list_elem_of_fmap_2
                  (λ td, (td.1, λ t0, Track_update t0 (detections !!! td.2)))
                  _ (i', d)).
    + done.
  - right. split; [done|].
    assert (i ∉ matches.*1) as Hni by (intros ?; by apply (Hdisj i)).
    split; [done|]. subst middle.
    apply (apply_ops_at _ _ i Track_mark_missed).
    + by rewrite miss_ops_fst.
    + unfold miss_ops.
      by apply (list_elem_of_fmap_2 (λ k, (k, Track_mark_missed)) _ i).
    + rewrite apply_ops_other by (by rewrite match_ops_fst). done.
Qed.

(** X2. In a frame every live track gets exactly one transition and every
    unmatched detection one new track.  [update] returns; with
    [(matches, ut, ud)] the outcome of [_match] and [mid] the tracker after
    the three loops that follow it: a track matched to detection [d] has
    become [Track.update] of itself with [detections[d]] and is not in
    [ut], any other track is in [ut] and has become its [mark_missed];
    the [j]-th unmatched detection has put a new track with id
    [_next_id + j] at position [len(tracks) + j]; and [_next_id] has
    grown by the number of unmatched detections. *)
Theorem update_gives_each_track_one_transition (self : Tracker)
    (detections : list Detection) :
  ∃ matches ut ud mid,
    _match self detections = Ok (matches, ut, PyList ud) ∧
    update_track_set self detections matches ut (PyList ud) = Ok mid ∧
    update self detections = Ok (update_metric mid) ∧
    length (tracks mid) = length (tracks self) + length ud ∧
    _next_id mid = _next_id self + length ud ∧
    (∀ i t, tracks self !! i = Some t →
       (∃ d, (i, d) ∈ matches ∧ (i ∉ ut) ∧
             tracks mid !! i = Some (Track_update t (detections !!! d))) ∨
       (i ∈ ut ∧ (i ∉ matches.*1) ∧
        tracks mid !! i = Some (Track_mark_missed t))) ∧
    (∀ j d, ud !! j = Some d →
       tracks mid !! (length (tracks self) + j) =
       Some (spawned self (_next_id self + j) (detections !!! d))).
Proof.
  destruct (update_track_set_spec_frame self detections)
    as (matches & ut & ud & Hm & _ & _ & Hmid & Hup & Hlen & Htr).
  cbv zeta in *. eexists matches, ut, ud, _.
  split; [done|]. split; [exact Hmid|]. split; [exact Hup|].
  cbn [tracks _next_id]. split_and!.
  - by rewrite length_app, length_imap, length_fmap, Hlen.
  - done.
  - intros i t Hi. pose proof (lookup_lt_Some _ _ _ Hi) as Hlt.
    rewrite lookup_app_l by lia. by apply Htr.
  - intros j d Hj. rewrite lookup_app_r by lia.
    replace (length (tracks self) + j - length _) with j by lia.
    by rewrite list_lookup_imap, list_lookup_fmap, Hj.
Qed.

(** What the methods and the constructor of [Track] do to the id (§3: an
    id is assigned at creation and never changed). *)
Hypothesis Track_update_id :
  ∀ t d, track_id (Track_update t d) = track_id t.
Hypothesis Track_mark_missed_id :
  ∀ t, track_id (Track_mark_missed t) = track_id t.
Hypothesis Track_init_id :
  ∀ m c id n a f cl, track_id (Track_init m c id n a f cl) = id.

Lemma apply_ops_ids (ops : list (nat * (Track → Track)))
    (trs : list Track) :
  (∀ p t, p ∈ ops → track_id (p.2 t) = track_id t) →
  track_id <$> apply_ops ops trs = track_id <$> trs.
Proof.
  revert trs. induction ops as [|[i f] ops IH]; intros trs Hid; [done|].
  change (apply_ops ((i, f) :: ops) trs)
    with (apply_ops ops (<[i := f (trs !!! i)]> trs)).
  rewrite IH by (intros p t Hp; apply Hid; by right).
  rewrite list_fmap_insert, (Hid (i, f)) by left.
  apply list_insert_id'. intros Hi. rewrite length_fmap in Hi.
  by rewrite list_lookup_fmap, (list_lookup_lookup_total_lt trs i Hi).
Qed.

Lemma spawned_id (self : Tracker) (id : nat) (d : Detection) :
  track_id (spawned self id d) = id.
Proof. unfold spawned. destruct (initiate _). apply Track_init_id. Qed.

(** [update] keeps the ids fresh, and gives new tracks ids from the old
    [_next_id] on. *)
Lemma update_ids_fresh_spec (self : Tracker)
    (detections : list Detection) :
  ids_fresh self →
  ∃ self',
    update self detections = Ok self' ∧
    ids_fresh self' ∧
    _next_id self ≤ _next_id self' ∧
    ∀ t', t' ∈ tracks self' →
          (∃ t, t ∈ tracks self ∧ track_id t = track_id t') ∨
          _next_id self ≤ track_id t'.
Proof.
  intros [Hnd Hlt].
  destruct (update_track_set_spec_frame self detections)
    as (matches & ut & ud & _ & _ & _ & _ & Hup & _ & _).
  cbv zeta in *. eexists. split; [exact Hup|].
  set (middle := apply_ops (miss_ops ut)
                   (apply_ops (match_ops detections matches) (tracks self)))
    in *.
  set (fresh := imap (λ j d, spawned self (_next_id self + j) d)
                     ((detections !!!.) <$> ud)) in *.
  assert (track_id <$> middle = track_id <$> tracks self) as Hmid.
  { subst middle. rewrite !apply_ops_ids; [done| |].
    - unfold match_ops. intros p t (td & -> & _)%list_elem_of_fmap.
      apply Track_update_id.
    - unfold miss_ops. intros p t (k & -> & _)%list_elem_of_fmap.
      apply Track_mark_missed_id. }
  assert (track_id <$> fresh = seq (_next_id self) (length ud)) as Hfresh.
  { subst fresh. rewrite fmap_imap.
    rewrite (imap_ext _ (λ j _, _next_id self + j))
      by (intros; simpl; apply spawned_id).
    rewrite imap_seq_0, length_fmap.
    apply list_eq. intros i. rewrite list_lookup_fmap.
    destruct (decide (i < length ud)) as [Hi|Hi].
    - rewrite (proj2 (lookup_seq 0 (length ud) i i)) by (split; [done|lia]).
      simpl. symmetry. apply lookup_seq. split; [done|lia].
    - rewrite !lookup_ge_None_2; rewrite ?length_seq; [done|lia|lia]. }
  assert (Hids : track_id <$> (middle ++ fresh) =
                 (track_id <$> tracks self) ++
                 seq (_next_id self) (length ud))
    by (by rewrite fmap_app, Hmid, Hfresh).
  unfold update_metric. rewrite foldl_collect. cbn [tracks _next_id app].
  set (live := filter (λ t, negb (is_deleted t)) (middle ++ fresh)).
  assert (track_id <$>
            ((λ t, if is_confirmed t then clear_features t else t) <$> live)
          = track_id <$> live) as Hclear.
  { rewrite <- list_fmap_compose. apply list_fmap_ext.
    intros i t _. simpl. by destruct (is_confirmed t). }
  assert (live `sublist_of` middle ++ fresh) as Hsub
    by apply sublist_filter.
  assert (Hold : ∀ k, k ∈ track_id <$> tracks self → k < _next_id self).
  { intros k (t & -> & Ht)%list_elem_of_fmap.
    rewrite Forall_forall in Hlt. by apply Hlt. }
  assert (NoDup (track_id <$> (middle ++ fresh))) as Hndall.
  { rewrite Hids. apply NoDup_app. split_and!; [done| |apply NoDup_seq].
    intros k Hk Hk'. apply Hold in Hk. apply elem_of_seq in Hk'. lia. }
  split; [|split].
  - split.
    + cbn [tracks]. rewrite Hclear.
      eapply sublist_NoDup; [exact Hndall|by apply fmap_sublist].
    + cbn [tracks _next_id]. apply Forall_forall.
      intros t' (t & -> & Ht)%list_elem_of_fmap.
      assert (track_id t ∈ track_id <$> (middle ++ fresh)) as Hin.
      { apply list_elem_of_fmap_2.
        by apply list_elem_of_filter in Ht as [_ ?]. }
      rewrite Hids in Hin. apply elem_of_app in Hin as [Hin|Hin].
      * apply Hold in Hin. destruct (is_confirmed t); simpl; lia.
      * apply elem_of_seq in Hin. destruct (is_confirmed t); simpl; lia.
  - cbn [_next_id]. lia.
  - cbn [tracks]. intros t' (t & -> & Ht)%list_elem_of_fmap.
    assert (track_id t ∈ track_id <$> (middle ++ fresh)) as Hin.
    { apply list_elem_of_fmap_2.
      by apply list_elem_of_filter in Ht as [_ ?]. }
    assert (track_id (if is_confirmed t then clear_features t else t) =
            track_id t) as -> by (by destruct (is_confirmed t)).
    rewrite Hids in Hin. apply elem_of_app in Hin as [Hin|Hin].
    + left. apply list_elem_of_fmap in Hin as (t0 & Heq & Ht0). eauto.
    + right. apply elem_of_seq in Hin. lia.
Qed.

Hypothesis Track_predict_id :
  ∀ t, track_id (Track_predict t) = track_id t.

Lemma predict_ids (self : Tracker) :
  track_id <$> tracks (predict self) = track_id <$> tracks self.
Proof.
  unfold predict. cbn [tracks]. rewrite <- list_fmap_compose.
  apply list_fmap_ext. intros i t _. apply Track_predict_id.
Qed.

Lemma predict_ids_fresh (self : Tracker) :
  ids_fresh self → ids_fresh (predict self).
Proof.
  intros [Hnd Hlt]. split.
  - by rewrite predict_ids.
  - unfold predict. cbn [tracks _next_id]. apply Forall_fmap.
    eapply Forall_impl; [exact Hlt|]. intros t Ht. simpl.
    by rewrite Track_predict_id.
Qed.

(** X3. Ids are never given twice.  A new tracker has fresh ids (none),
    and from a tracker whose live tracks have pairwise different ids below
    [_next_id], every sequence of frames ([predict], then [update]) runs
    through and ends in such a tracker again; [_next_id] never decreases,
    and every track alive at the end has the id of a track alive at the
    start or an id from the starting [_next_id] on. *)
Theorem frames_keep_ids_fresh (m : Metric) (max_iou : option Q)
    (age init : option Z) :
  ids_fresh (__init__ m max_iou age init) ∧
  ∀ (session : list (list Detection)) (self : Tracker),
    ids_fresh self →
    ∃ self',
      frames self session = Ok self' ∧
      ids_fresh self' ∧
      _next_id self ≤ _next_id self' ∧
      ∀ t', t' ∈ tracks self' →
            (∃ t, t ∈ tracks self ∧ track_id t = track_id t') ∨
            _next_id self ≤ track_id t'.
Proof.
  split.
  { split; [constructor|constructor]. }
  induction session as [|detections session IH]; intros self Hfresh.
  { exists self. split; [done|]. split; [done|]. split; [done|].
    intros t' Ht'. left. by exists t'. }
  destruct (update_ids_fresh_spec (predict self) detections
              (predict_ids_fresh self Hfresh))
    as (s1 & Hup & Hfresh1 & Hle1 & Hids1).
  destruct (IH s1 Hfresh1) as (s2 & Hrun & Hfresh2 & Hle2 & Hids2).
  exists s2. split.
  { change (frames self (detections :: session))
      with (s ← update (predict self) detections; frames s session).
    by rewrite Hup, bind_Ok. }
  split; [done|].
  change (_next_id (predict self)) with (_next_id self) in *.
  split; [lia|].
  intros t' Ht'. destruct (Hids2 t' Ht') as [(t1 & Ht1 & Heq)|Hnew];
    [|right; lia].
  destruct (Hids1 t1 Ht1) as [(t0 & Ht0 & Heq0)|Hnew]; [|right; lia].
  left. unfold predict in Ht0. cbn [tracks] in Ht0.
  apply list_elem_of_fmap in Ht0 as (t & -> & Ht).
  exists t. split; [done|].
  by rewrite <- Heq, <- Heq0, Track_predict_id.
Qed.

End tracker_frame.

(** ** Frames without detections or without tracks *)

Lemma lookup_total_seq_fmap {A} `{!Inhabited A} (l : list A) :
  (l !!!.) <$> seq 0 (length l) = l.
Proof.
  apply list_eq. intros i. rewrite list_lookup_fmap.
  destruct (decide (i < length l)) as [Hi|Hi].
  - rewrite (list_lookup_lookup_total_lt l i Hi).
    by rewrite (proj2 (lookup_seq 0 (length l) i i)) by (split; [done|lia]).
  - rewrite (lookup_ge_None_2 l i) by lia.
    by rewrite (lookup_ge_None_2 (seq 0 (length l)) i)
      by (rewrite length_seq; lia).
Qed.

Section tracker_edges.
Context `{!AssignmentSolver, !SetOrder, !KalmanFilter, !Collaborators}.

Hypothesis list_of_set_elem : ∀ s k, k ∈ list_of_set s ↔ k ∈ s.
Hypothesis list_of_set_NoDup : ∀ s, NoDup (list_of_set s).

Lemma list_of_set_nil (s : gset nat) :
  (∀ k, k ∉ s) → list_of_set s = [].
Proof.
  intros Hs. destruct (list_of_set s) as [|k l] eqn:E; [done|].
  destruct (Hs k). apply list_of_set_elem. rewrite E. by left.
Qed.

Lemma apply_ops_miss_all (ut : list nat) (trs : list Track) :
  NoDup ut → (∀ k, k ∈ ut ↔ k < length trs) →
  apply_ops (miss_ops ut) trs = Track_mark_missed <$> trs.
Proof.
  intros Hnd Hall. apply list_eq. intros i. rewrite list_lookup_fmap.
  destruct (trs !! i) as [t|] eqn:Hi.
  - apply (apply_ops_at _ _ i Track_mark_missed t); [|  |done].
    + by rewrite miss_ops_fst.
    + unfold miss_ops.
      apply (list_elem_of_fmap_2 (λ k, (k, Track_mark_missed)) _ i).
      apply Hall. by apply lookup_lt_Some in Hi.
  - apply lookup_ge_None. rewrite length_apply_ops.
    by apply lookup_ge_None in Hi.
Qed.

(** Without detections [_match] leaves every track unmatched, whatever
    the cost functions and the solver are. *)
Lemma _match_no_detections (self : Tracker) :
  ∃ ut, _match self [] = Ok ([], ut, PyList []) ∧
        NoDup ut ∧ ∀ k, k ∈ ut ↔ k < length (tracks self).
Proof.
  set (trs := tracks self).
  set (uta := list_of_set (list_to_set (confirmed_positions trs) ∖
                           list_to_set ([] : list (nat * nat)).*1)).
  assert (Huta : ∀ k, k ∈ uta ↔ k ∈ confirmed_positions trs).
  { intros k. subst uta. rewrite list_of_set_elem, elem_of_difference.
    rewrite !elem_of_list_to_set. simpl. rewrite elem_of_nil. tauto. }
  assert (Forall (λ k, k < length trs) uta) as Hlt.
  { apply Forall_forall. intros k Hk%Huta.
    by apply confirmed_positions_elem in Hk as [? _]. }
  set (recent := filter (λ k, bool_decide
                           (time_since_update (trs !!! k) = 1)) uta).
  set (stale := filter (λ k, negb (bool_decide
                           (time_since_update (trs !!! k) = 1))) uta).
  set (cands := unconfirmed_positions trs ++ recent).
  exists (list_of_set (list_to_set (stale ++ cands))).
  split; [|split; [apply list_of_set_NoDup|]].
  - unfold _match. cbv zeta. fold trs.
    rewrite (enumerate_filter_positions is_confirmed trs).
    rewrite (enumerate_filter_positions (λ t, negb (is_confirmed t)) trs).
    fold (confirmed_positions trs). fold (unconfirmed_positions trs).
    unfold matching_cascade. cbv zeta. cbn [default length seq items].
    rewrite cascade_levels_no_detections by done. rewrite bind_Ok.
    fold uta. rewrite bind_Ok.
    rewrite !(select_in_range _ trs uta Hlt), !bind_Ok.
    fold recent stale cands.
    rewrite min_cost_matching_nothing; [by rewrite bind_Ok|].
    simpl. destruct cands; [by left|by right].
  - intros k. rewrite list_of_set_elem, elem_of_list_to_set.
    subst cands stale recent. rewrite !elem_of_app, !list_elem_of_filter.
    rewrite unconfirmed_positions_elem, Huta, confirmed_positions_elem.
    rewrite negb_True, bool_decide_spec.
    destruct (decide (time_since_update (trs !!! k) = 1));
      destruct (is_confirmed (trs !!! k)); simpl; tauto.
Qed.

(** X4. A frame without detections.  Whatever the solver, the cost
    functions and the filter are, [update] on an empty detection list
    returns: every track has had its [mark_missed] transition, no track has
    been created and [_next_id] is as before; the deleted tracks are then
    dropped and the metric refreshed as in every frame. *)
Theorem update_without_detections (self : Tracker) :
  update self [] =
  Ok (update_metric
        (with_tracks self (Track_mark_missed <$> tracks self))).
Proof.
  destruct (_match_no_detections self) as (ut & Hm & Hnd & Hall).
  unfold update. rewrite Hm, bind_Ok.
  rewrite update_track_set_closed.
  - rewrite bind_Ok. do 2 f_equal. simpl.
    change (apply_ops (match_ops [] []) (tracks self)) with (tracks self).
    by rewrite (apply_ops_miss_all ut (tracks self) Hnd Hall).
  - constructor.
  - apply Forall_forall. intros k. apply Hall.
  - constructor.
Qed.

Lemma cascade_levels_no_tracks (distance_metric : DistanceMetric)
    (max_distance : Q) (trs : list Track) (detections : list Detection)
    (levels : list nat) (ms : list (nat * nat)) (pool : IndexSeq) :
  cascade_levels distance_metric max_distance trs detections (PyList [])
                 levels ms pool = Ok (ms, pool).
Proof.
  induction levels as [|L levels IH]; [done|].
  rewrite cascade_levels_cons. case_bool_decide; [done|].
  simpl. exact IH.
Qed.

(** X5. A frame without live tracks.  Whatever the solver and the cost
    functions are, [update] on a tracker without tracks returns: before
    the deleted tracks are dropped and the metric is refreshed, the
    [j]-th detection has spawned the [j]-th track, with id [_next_id + j],
    and [_next_id] has grown by the number of detections. *)
Theorem update_without_tracks (self : Tracker)
    (detections : list Detection) :
  tracks self = [] →
  update self detections =
  Ok (update_metric
        {| metric := metric self; max_age := max_age self;
           max_iou_distance := max_iou_distance self;
           n_init := n_init self;
           tracks := imap (λ j d, spawned self (_next_id self + j) d)
                          detections;
           _next_id := _next_id self + length detections |}).
Proof.
  intros Hnil.
  assert (_match self detections =
          Ok ([], [], PyList (seq 0 (length detections)))) as Hm.
  { unfold _match. cbv zeta. rewrite Hnil.
    change (enumerate ([] : list Track)) with ([] : list (nat * Track)).
    rewrite !filter_nil. cbn [fmap list_fmap].
    unfold matching_cascade. cbv zeta. cbn [default items length seq].
    rewrite cascade_levels_no_tracks, bind_Ok.
    rewrite list_of_set_nil.
    2: { intros k [Hk _]%elem_of_difference.
         by apply elem_of_list_to_set, elem_of_nil in Hk. }
    rewrite bind_Ok. cbn [select]. rewrite !bind_Ok. cbn [app].
    rewrite min_cost_matching_nothing by (by left).
    rewrite bind_Ok. cbn [list_add app]. rewrite bind_Ok. cbn [items].
    rewrite list_of_set_nil; [done|].
    intros k Hk. by apply elem_of_list_to_set, elem_of_nil in Hk. }
  unfold update. rewrite Hm, bind_Ok.
  rewrite update_track_set_closed.
  - rewrite bind_Ok. do 2 f_equal.
    rewrite lookup_total_seq_fmap, foldl_initiate_track.
    cbn [with_tracks metric max_age max_iou_distance n_init tracks
         _next_id].
    by rewrite Hnil.
  - constructor.
  - constructor.
  - apply Forall_forall. intros k Hk. apply elem_of_seq in Hk. lia.
Qed.

End tracker_edges.

(** ** More on the cascade *)

Section cascade_more.
Context `{!AssignmentSolver, !SetOrder}.

Hypothesis solver_valid :
  ∀ m R C, shape m R C → valid_assignment R C (linear_assignment m).
Hypothesis list_of_set_elem : ∀ s k, k ∈ list_of_set s ↔ k ∈ s.

(** X6. The cascade only matches tracks inside its age window.  A call
    with list subsets (or the defaults) returns; every match pairs a
    track of the track subset whose [time_since_update] lies between 1
    and [cascade_depth] with a detection of the detection subset; a track
    of the subset that was just updated ([time_since_update = 0]) or is
    older than [cascade_depth] is returned unmatched. *)
Theorem matching_cascade_age_window (distance_metric : DistanceMetric)
    (max_distance : Q) (cascade_depth : Z) (tracks : list Track)
    (detections : list Detection)
    (track_indices detection_indices : option IndexSeq)
    (ti di : list nat) :
  well_shaped distance_metric tracks detections →
  default (PyList (seq 0 (length tracks))) track_indices = PyList ti →
  default (PyList (seq 0 (length detections))) detection_indices =
    PyList di →
  Forall (λ k, k < length tracks) ti →
  Forall (λ k, k < length detections) di →
  ∃ matches ut ud,
    matching_cascade distance_metric max_distance cascade_depth tracks
                     detections track_indices detection_indices =
    Ok (matches, ut, PyList ud) ∧
    (∀ t d, (t, d) ∈ matches →
       t ∈ ti ∧ d ∈ di ∧
       1 ≤ time_since_update (tracks !!! t) ≤ Z.to_nat cascade_depth) ∧
    (∀ k, k ∈ ti →
       time_since_update (tracks !!! k) = 0 ∨
       Z.to_nat cascade_depth < time_since_update (tracks !!! k) →
       k ∈ ut).
Proof.
  intros Hws Hti Hdi Hrt Hrd.
  rewrite (matching_cascade_unfold distance_metric max_distance tracks
             detections ti cascade_depth track_indices detection_indices
             (PyList di) Hti Hdi).
  unfold cascade_state_at.
  destruct (cascade_levels_spec solver_valid distance_metric max_distance
              tracks detections ti Hws Hrt (seq 0 (Z.to_nat cascade_depth))
              [] di Hrd) as (ms & pool & Hrun & Hp & Ht & _).
  rewrite Hrun, bind_Ok. simpl. eexists _, _, _. split; [reflexivity|].
  assert (Hwin : ∀ t d, (t, d) ∈ ms →
            t ∈ ti ∧ d ∈ di ∧
            1 ≤ time_since_update (tracks !!! t) ≤ Z.to_nat cascade_depth).
  { intros t d Hin. destruct (Ht t d Hin) as (Htin & L & HL & Hage).
    apply elem_of_seq in HL. split; [done|]. split; [|lia].
    rewrite <- Hp. apply elem_of_app. left.
    by apply (list_elem_of_fmap_2 snd _ (t, d)). }
  split; [exact Hwin|].
  intros k Hk Hage. rewrite list_of_set_elem, elem_of_difference.
  rewrite !elem_of_list_to_set. split; [done|].
  intros ([t d] & -> & Hin)%list_elem_of_fmap.
  destruct (Hwin t d Hin) as (_ & _ & ?). simpl in *. lia.
Qed.

End cascade_more.

(** ** More on the matcher and the gating step *)

Lemma matrix_eq (m1 m2 : Matrix) (R C : nat) :
  shape m1 R C → shape m2 R C →
  (∀ r c, r < R → c < C → entry m1 r c = entry m2 r c) → m1 = m2.
Proof.
  intros Hs1 Hs2 He. pose proof Hs1 as [HR1 _]. pose proof Hs2 as [HR2 _].
  apply (list_eq_same_length _ _ R); [done|done|].
  intros r row1 row2 Hr H1 H2.
  pose proof (shape_row m1 R C r Hs1 Hr) as Hl1.
  pose proof (shape_row m2 R C r Hs2 Hr) as Hl2.
  rewrite (list_lookup_total_correct _ _ _ H1) in Hl1.
  rewrite (list_lookup_total_correct _ _ _ H2) in Hl2.
  apply (list_eq_same_length _ _ C); [done|done|].
  intros c x y Hc Hx Hy. specialize (He r c Hr Hc). unfold entry in He.
  rewrite (list_lookup_total_correct _ _ _ H1) in He.
  rewrite (list_lookup_total_correct _ _ _ H2) in He.
  rewrite (list_lookup_total_correct _ _ _ Hx) in He.
  by rewrite (list_lookup_total_correct _ _ _ Hy) in He.
Qed.

Section gating_more.
Context `{!KalmanFilter}.

Hypothesis gating_distance_length :
  ∀ m c measurements only_position,
    length (gating_distance m c measurements only_position) =
    length measurements.

(** The entries of the gated matrix, for any sentinel. *)
Lemma get_cost_matrix_entries (cm : Matrix) (tracks : list Track)
    (detections : list Detection) (ti di : IndexSeq)
    (gated_cost : option Q) (only_position : bool) :
  shape cm (length (items ti)) (length (items di)) →
  Forall (λ k, k < length tracks) (items ti) →
  Forall (λ k, k < length detections) (items di) →
  ∃ cm',
    get_cost_matrix cm tracks detections ti di gated_cost only_position =
      Ok cm' ∧
    shape cm' (length (items ti)) (length (items di)) ∧
    ∀ r c, r < length (items ti) → c < length (items di) →
      entry cm' r c =
      if Qgtb (gating_row tracks detections (items ti) (items di)
                          only_position r !!! c)
              (if only_position then (59915 # 10000)%Q
               else (94877 # 10000)%Q)
      then default INFTY_COST gated_cost else entry cm r c.
Proof.
  intros Hs Hti Hdi. unfold get_cost_matrix. cbv zeta.
  rewrite dict_get_chi_square, bind_Ok.
  rewrite (gather_in_range _ _ _ Hdi), bind_Ok.
  rewrite enumerate_lookup_total.
  destruct (gating_rows_spec gating_distance_length cm tracks detections
              (items ti) (items di) only_position
              (if only_position then (59915 # 10000)%Q
               else (94877 # 10000)%Q)
              (default INFTY_COST gated_cost) (length (items ti)) Hs Hti
              (le_n _))
    as (cm' & Hrun & Hs' & He).
  exists cm'. split; [exact Hrun|]. split; [done|].
  intros r c Hr Hc. rewrite (He r c Hr Hc). by rewrite decide_True.
Qed.

(** X7. Gating is idempotent.  On a cost matrix of the subsets' shape
    and in-range subsets, the call returns a matrix, and gating that
    matrix again, for the same tracks, detections, subsets and sentinel,
    returns it unchanged. *)
Theorem get_cost_matrix_idempotent (cm : Matrix)
    (tracks : list Track) (detections : list Detection) (ti di : IndexSeq)
    (gated_cost : option Q) (only_position : bool) :
  shape cm (length (items ti)) (length (items di)) →
  Forall (λ k, k < length tracks) (items ti) →
  Forall (λ k, k < length detections) (items di) →
  ∃ cm',
    get_cost_matrix cm tracks detections ti di gated_cost only_position =
      Ok cm' ∧
    get_cost_matrix cm' tracks detections ti di gated_cost only_position =
      Ok cm'.
Proof.
  intros Hs Hti Hdi.
  destruct (get_cost_matrix_entries cm tracks detections ti di gated_cost
              only_position Hs Hti Hdi) as (cm' & Hrun & Hs' & He).
  destruct (get_cost_matrix_entries cm' tracks detections ti di gated_cost
              only_position Hs' Hti Hdi) as (cm'' & Hrun' & Hs'' & He').
  exists cm'. split; [done|]. rewrite Hrun'. f_equal.
  apply (matrix_eq cm'' cm' _ _ Hs'' Hs'). intros r c Hr Hc.
  rewrite (He' r c Hr Hc), (He r c Hr Hc).
  by destruct (Qgtb _ _).
Qed.

(** X8. A cost matrix of the wrong width is refused.  When the first row
    of the cost matrix has not one column per detection index, a call
    with in-range detection indices and a first track index in range
    raises [IndexError]. *)
Theorem get_cost_matrix_wrong_width (row : list Q) (cm : Matrix)
    (tracks : list Track) (detections : list Detection)
    (k : nat) (ti di : list nat)
    (gated_cost : option Q) (only_position : bool) :
  length row ≠ length di →
  k < length tracks →
  Forall (λ k, k < length detections) di →
  get_cost_matrix (row :: cm) tracks detections (PyList (k :: ti))
                  (PyList di) gated_cost only_position =
  Raise IndexError.
Proof.
  intros Hw Hk Hdi. unfold get_cost_matrix. cbv zeta.
  rewrite dict_get_chi_square, bind_Ok.
  rewrite (gather_in_range _ _ _ Hdi), bind_Ok.
  cbn [items]. unfold enumerate. cbn [length seq zip zip_with foldM].
  rewrite (index_lt _ k Hk), bind_Ok. cbv zeta.
  unfold mask_assign. cbn [index lookup list_lookup]. rewrite bind_Ok.
  rewrite bool_decide_eq_false_2; [done|].
  rewrite length_fmap, gating_distance_length, length_fmap. congruence.
Qed.

End gating_more.



Section matcher_more.
Context `{!AssignmentSolver, !KalmanFilter, !Collaborators}.

Hypothesis solver_valid :
  ∀ m R C, shape m R C → valid_assignment R C (linear_assignment m).
Hypothesis gating_distance_length :
  ∀ m c measurements only_position,
    length (gating_distance m c measurements only_position) =
    length measurements.
Hypothesis metric_distance_shape :
  ∀ m fs ts, shape (metric_distance m fs ts) (length ts) (length fs).



End matcher_more.

(*FB_FACTS*)

(** ** Further runs on concrete inputs *)

Lemma _match_covers_tracks_and_detections_witness :
  ∃ matches ut ud,
    _match sample_tracker sample_detections = Ok (matches, ut, PyList ud) ∧
    matches.*1 ++ ut ≡ₚ [0; 1; 2] ∧
    matches.*2 ++ ud ≡ₚ [0; 1; 2; 3] ∧
    NoDup (matches.*1 ++ ut) ∧ NoDup (matches.*2 ++ ud).
Proof.
  exact (_match_covers_tracks_and_detections diagonal_assignment_valid
           elements_order_elem elements_order_NoDup flat_filter_length
           sample_metric_distance_shape sample_iou_cost_shaped
           sample_tracker sample_detections).
Defined.

Lemma update_gives_each_track_one_transition_witness :
  ∃ matches ut ud mid,
    _match sample_tracker sample_detections = Ok (matches, ut, PyList ud) ∧
    update sample_tracker sample_detections = Ok (update_metric mid) ∧
    length (tracks mid) = 3 + length ud ∧
    _next_id mid = 4 + length ud.
Proof.
  destruct (update_gives_each_track_one_transition
              diagonal_assignment_valid elements_order_elem
              elements_order_NoDup flat_filter_length
              sample_metric_distance_shape sample_iou_cost_shaped
              sample_tracker sample_detections)
    as (matches & ut & ud & mid & Hm & _ & Hup & Hlen & Hid & _).
  exists matches, ut, ud, mid.
  exact (conj Hm (conj Hup (conj Hlen Hid))).
Defined.

Lemma frames_keep_ids_fresh_witness :
  ∃ self',
    frames (__init__ (mkMetric (1 # 5) []) None None None)
           [sample_detections; []; sample_detections] = Ok self' ∧
    ids_fresh self' ∧ 1 ≤ _next_id self'.
Proof.
  destruct (frames_keep_ids_fresh diagonal_assignment_valid
              elements_order_elem elements_order_NoDup flat_filter_length
              sample_metric_distance_shape sample_iou_cost_shaped
              (λ _ _, eq_refl) (λ _, eq_refl)
              (λ _ _ _ _ _ _ _, eq_refl) (λ _, eq_refl)
              (mkMetric (1 # 5) []) None None None)
    as [Hnew Hrun].
  destruct (Hrun [sample_detections; []; sample_detections] _ Hnew)
    as (self' & Hframes & Hfresh & Hnext & _).
  exists self'. exact (conj Hframes (conj Hfresh Hnext)).
Defined.

Lemma update_without_detections_witness :
  update sample_tracker [] =
  Ok (update_metric (with_tracks sample_tracker sample_tracks)).
Proof.
  exact (update_without_detections elements_order_elem
           elements_order_NoDup sample_tracker).
Defined.

Lemma update_without_tracks_witness :
  ∃ self',
    update (__init__ (mkMetric (1 # 5) []) None None None)
           sample_detections = Ok self' ∧
    track_id <$> tracks self' = [1; 2; 3; 4] ∧ _next_id self' = 5.
Proof.
  eexists. split.
  - apply (update_without_tracks elements_order_elem). reflexivity.
  - split; reflexivity.
Defined.

Lemma matching_cascade_age_window_witness :
  ∃ matches ut ud,
    matching_cascade (const_metric (1 # 10)) (1 # 2) 1 sample_tracks
                     sample_detections None None =
    Ok (matches, ut, PyList ud) ∧
    1 ∈ ut.
Proof.
  destruct (matching_cascade_age_window diagonal_assignment_valid
              elements_order_elem
              (const_metric (1 # 10)) (1 # 2) 1 sample_tracks
              sample_detections None None [0; 1; 2] [0; 1; 2; 3]
              (const_metric_well_shaped _ _ _) eq_refl eq_refl
              ltac:(by repeat constructor) ltac:(by repeat constructor))
    as (matches & ut & ud & Hrun & _ & Hout).
  exists matches, ut, ud. split; [exact Hrun|].
  apply Hout.
  - apply (bool_decide_unpack _). exact I.
  - right. vm_compute. lia.
Defined.

Lemma get_cost_matrix_idempotent_witness :
  let cm := [[1 # 10; 9 # 10]; [9 # 10; 9 # 10]]%Q in
  ∃ cm',
    @get_cost_matrix ramp_filter cm sample_tracks sample_detections
                     (PyList [0; 1]) (PyList [0; 1]) None false = Ok cm' ∧
    @get_cost_matrix ramp_filter cm' sample_tracks sample_detections
                     (PyList [0; 1]) (PyList [0; 1]) None false = Ok cm'.
Proof.
  intros cm.
  apply (@get_cost_matrix_idempotent ramp_filter ramp_filter_length cm
           sample_tracks sample_detections (PyList [0; 1]) (PyList [0; 1])
           None false); by repeat constructor.
Defined.

Lemma get_cost_matrix_wrong_width_witness :
  get_cost_matrix [[1 # 10]]%Q sample_tracks sample_detections
                  (PyList [0]) (PyList [0; 1]) None false =
  Raise IndexError.
Proof.
  apply (get_cost_matrix_wrong_width flat_filter_length).
  - simpl. lia.
  - simpl. lia.
  - by repeat constructor.
Defined.



(*FB_WITNESSES*)
